(** * Orderbook analytics and replay engine (OrderbookVisualizer component)

    Shallow embedding of the analytics core of the React component
    [OrderbookVisualizer]: tick-size aggregation ([aggregateByTickSize],
    [formatOrderbookData]), the detection effect of the live feed
    (large-order changes, whales, spoofing, heatmap capture) and the replay
    controller (downsampling of the fetched history, [handleSeek],
    [handleJumpBack], [handleJumpForward]).

    Modelling choices.

    - JavaScript numbers are IEEE-754 binary64 values.  They are modelled by
      the Standard Library's executable specification [spec_float] at
      precision 53 and maximal exponent 1024, so every arithmetic step of
      the source rounds here as it does in the engine.
    - Array indices, array lengths and millisecond clock readings
      ([Date.now()], [Date.getTime()]) are integers far below 2^53, on which
      binary64 arithmetic is exact; they are modelled by [nat] and [Z].
    - A [Map] is an association list in insertion order, looked up with the
      SameValueZero comparison of its keys; a [Set] is a list without
      repetition.
    - The cells written by [useState] setters and the [useRef] cells are the
      fields of a state record; an event handler or effect is a function
      from the state before to the state after.  A handler that can throw
      returns an [option].  The delays of timers (the 600 ms flash reset,
      the period of the playback interval) are outside the model. *)

From Stdlib Require Import List ZArith Lia Bool PeanoNat Permutation.
From Stdlib Require Import Floats.SpecFloat.
Import ListNotations.

Set Implicit Arguments.

(* ===================================================================== *)
(** ** JavaScript numbers *)
(* ===================================================================== *)

Module JSNum.

Definition number := spec_float.

Definition prec : Z := 53.
Definition emax : Z := 1024.

Definition add : number -> number -> number := SFadd prec emax.
Definition sub : number -> number -> number := SFsub prec emax.
Definition mul : number -> number -> number := SFmul prec emax.
Definition div : number -> number -> number := SFdiv prec emax.

(** [a < b], [a <= b], [a > b], [a >= b]: false as soon as one side is NaN. *)
Definition lt (a b : number) : bool := SFltb a b.
Definition le (a b : number) : bool := SFleb a b.
Definition gt (a b : number) : bool := SFltb b a.
Definition ge (a b : number) : bool := SFleb b a.

(** An integer as a number (exact below 2^53, rounded above). *)
Definition of_Z (z : Z) : number := binary_normalize prec emax z 0 false.
Definition of_nat (n : nat) : number := of_Z (Z.of_nat n).

(** The decimal literal [m / 10^k], e.g. [dec 25 2] for [0.25].  With [m]
    and [10^k] below 2^53 the correctly rounded quotient is the binary64
    value nearest to the decimal, which is what a numeric literal and
    [parseFloat] denote. *)
Definition dec (m : Z) (k : nat) : number :=
  div (of_Z m) (of_Z (10 ^ Z.of_nat k)).

Definition zero : number := S754_zero false.
Definition neg_infinity : number := S754_infinity true.
Definition pos_infinity : number := S754_infinity false.

Definition is_nan (x : number) : bool :=
  match x with S754_nan => true | _ => false end.

(** [Math.abs] *)
Definition abs : number -> number := SFabs.

(** [Math.floor]: a finite value [±m·2^e] with [e >= 0] is an integer;
    otherwise its magnitude is below 2^53 and the integer floor is exactly
    representable.  A zero result keeps the sign of the argument. *)
Definition floor (x : number) : number :=
  match x with
  | S754_finite s m e =>
      if (0 <=? e)%Z then x
      else
        let z := Z.shiftr (if s then Z.neg m else Z.pos m) (- e) in
        binary_normalize prec emax z 0 s
  | _ => x
  end.

(** [Math.ceil x = - Math.floor (- x)] *)
Definition ceil (x : number) : number := SFopp (floor (SFopp x)).

(** [Math.max] and [Math.min] of two arguments: NaN is contagious and
    [+0] is larger than [-0]. *)
Definition max2 (a b : number) : number :=
  if is_nan a || is_nan b then S754_nan
  else match a, b with
       | S754_zero sa, S754_zero sb => S754_zero (sa && sb)
       | _, _ => if lt a b then b else a
       end.

Definition min2 (a b : number) : number :=
  if is_nan a || is_nan b then S754_nan
  else match a, b with
       | S754_zero sa, S754_zero sb => S754_zero (sa || sb)
       | _, _ => if lt b a then b else a
       end.

(** [Math.max(...xs)] and [Math.min(...xs)]; the empty spread gives
    [-Infinity] and [Infinity]. *)
Definition max_list (xs : list number) : number := fold_left max2 xs neg_infinity.
Definition min_list (xs : list number) : number := fold_left min2 xs pos_infinity.

(** [xs.reduce((a, b) => a + b, 0)] *)
Definition sum (xs : list number) : number := fold_left add xs zero.

(** [x || 0] for a number [x]: the falsy numbers are [NaN], [+0], [-0]. *)
Definition or_zero (x : number) : number :=
  match x with
  | S754_nan | S754_zero _ => zero
  | _ => x
  end.

(** The SameValueZero comparison used for [Map] and [Set] keys: NaN equals
    NaN and the two zeros are equal. *)
Definition same_value_zero (x y : number) : bool :=
  match x, y with
  | S754_nan, S754_nan => true
  | S754_zero _, S754_zero _ => true
  | S754_infinity a, S754_infinity b => Bool.eqb a b
  | S754_finite s m e, S754_finite s' m' e' =>
      Bool.eqb s s' && Pos.eqb m m' && Z.eqb e e'
  | _, _ => false
  end.

(** The key a [Map] or [Set] stores: [-0] is normalised to [+0]. *)
Definition key_of (x : number) : number :=
  match x with S754_zero _ => zero | _ => x end.

(** [parseFloat] applied to a value that is already a number: the number
    is printed in its shortest round-trip form and read back, which gives
    the same value, with [-0] printed as ["0"]. *)
Definition parseFloat_of_number (x : number) : number := key_of x.

End JSNum.

Import JSNum.

(* ===================================================================== *)
(** ** JavaScript [Map] and [Set] with number keys *)
(* ===================================================================== *)

(** A [Map] keeps its entries in insertion order; writing to a key that is
    already present replaces the value in place. *)
Module JSMap.

Definition t (V : Type) : Type := list (number * V).

Definition empty {V : Type} : t V := [].

Fixpoint get {V : Type} (k : number) (m : t V) : option V :=
  match m with
  | [] => None
  | (k', v) :: m' => if same_value_zero k k' then Some v else get k m'
  end.

Definition has {V : Type} (k : number) (m : t V) : bool :=
  match get k m with Some _ => true | None => false end.

Fixpoint set {V : Type} (k : number) (v : V) (m : t V) : t V :=
  match m with
  | [] => [(key_of k, v)]
  | (k', v') :: m' =>
      if same_value_zero k k' then (k', v) :: m' else (k', v') :: set k v m'
  end.

Fixpoint delete {V : Type} (k : number) (m : t V) : t V :=
  match m with
  | [] => []
  | (k', v') :: m' =>
      if same_value_zero k k' then m' else (k', v') :: delete k m'
  end.

Definition entries {V : Type} (m : t V) : list (number * V) := m.
Definition values {V : Type} (m : t V) : list V := map snd m.
Definition size {V : Type} (m : t V) : nat := length m.

(** [new Map(iterable)] *)
Definition of_entries {V : Type} (es : list (number * V)) : t V :=
  fold_left (fun m e => set (fst e) (snd e) m) es empty.

End JSMap.

Module JSSet.

Definition t : Type := list number.

Definition empty : t := [].

Definition has (k : number) (s : t) : bool := existsb (same_value_zero k) s.

Definition add (k : number) (s : t) : t :=
  if has k s then s else s ++ [key_of k].

End JSSet.

(** [arr.sort(cmp)]: stable; [cmp a b > 0] puts [a] after [b], every other
    result (negative, zero, NaN) leaves the two in their order.  For a
    consistent comparator the language fixes the result and this is it.  A
    comparator that answers NaN for some pairs only (a NaN price among the
    buckets) is not consistent; the order is then left to the engine, and
    no statement below about the order of a ladder covers that case. *)
Fixpoint sort_insert {A : Type} (cmp : A -> A -> number) (x : A) (l : list A) : list A :=
  match l with
  | [] => [x]
  | y :: l' => if gt (cmp x y) zero then y :: sort_insert cmp x l' else x :: l
  end.

Definition js_sort {A : Type} (cmp : A -> A -> number) (l : list A) : list A :=
  fold_right (sort_insert cmp) [] l.

(** [arr.filter((_, idx) => p idx)] *)
Fixpoint filter_index_from {A : Type} (p : nat -> bool) (i : nat) (l : list A) : list A :=
  match l with
  | [] => []
  | x :: l' =>
      if p i then x :: filter_index_from p (S i) l'
      else filter_index_from p (S i) l'
  end.

Definition filter_index {A : Type} (p : nat -> bool) (l : list A) : list A :=
  filter_index_from p 0 l.

(** [arr.slice(-n)] *)
Definition slice_last {A : Type} (n : nat) (l : list A) : list A :=
  skipn (length l - n) l.

(** [arr.slice(0, n)] for an integer [n]: a negative end counts from the end
    of the array, so that the last [-n] elements are left out. *)
Definition slice_to {A : Type} (n : Z) (l : list A) : list A :=
  if (n <? 0)%Z then firstn (length l - Z.to_nat (- n)) l
  else firstn (Z.to_nat n) l.

(* ===================================================================== *)
(** ** Data model *)
(* ===================================================================== *)

(** A raw level, with [parseFloat] already applied to its two fields. *)
Record PriceLevel : Type := { price : number; volume : number }.

(** A snapshot as pushed by the feed or returned by the history query.
    [snap_ref] stands for the identity of the JavaScript object (what [===]
    compares); [timestamp] is [new Date(timestamp).getTime()], in
    milliseconds.  An absent side is the empty list ([bids || []]). *)
Record Snapshot : Type := {
  snap_ref : nat;
  bids : list PriceLevel;
  asks : list PriceLevel;
  timestamp : Z
}.

(** An entry of an aggregated ladder: [{ price, volume, total }]. *)
Record AggregatedLevel : Type := {
  agg_price : number;
  agg_volume : number;
  total : number
}.

(* ===================================================================== *)
(** ** Tick aggregator *)
(* ===================================================================== *)

Definition roundedPrice (p tickSize : number) (isBid : bool) : number :=
  if isBid then mul (floor (div p tickSize)) tickSize
  else mul (ceil (div p tickSize)) tickSize.

Definition aggregateStep (tickSize : number) (isBid : bool)
    (aggregated : JSMap.t number) (level : PriceLevel) : JSMap.t number :=
  let rp := roundedPrice (price level) tickSize isBid in
  match JSMap.get rp aggregated with
  | Some v => JSMap.set rp (add v (volume level)) aggregated
  | None => JSMap.set rp (volume level) aggregated
  end.

Definition ladderCompare (isBid : bool) (a b : AggregatedLevel) : number :=
  if isBid then sub (agg_price b) (agg_price a)
  else sub (agg_price a) (agg_price b).

(** [([price, volume]) => ({ price, volume, total: 0 })] *)
Definition entryBucket (e : number * number) : AggregatedLevel :=
  {| agg_price := fst e; agg_volume := snd e; total := zero |}.

Definition aggregateByTickSize (orders : list PriceLevel) (tickSize : number)
    (isBid : bool) : list AggregatedLevel :=
  let aggregated := fold_left (aggregateStep tickSize isBid) orders JSMap.empty in
  js_sort (ladderCompare isBid) (map entryBucket (JSMap.entries aggregated)).

(** An aggregated ladder handed back to [aggregateByTickSize]: the function
    reads [level.price] and [level.volume] through [parseFloat]. *)
Definition asOrders (ladder : list AggregatedLevel) : list PriceLevel :=
  map (fun a => {| price := parseFloat_of_number (agg_price a);
                   volume := parseFloat_of_number (agg_volume a) |}) ladder.

(** The two [forEach] loops that fill in [total]. *)
Fixpoint cumulate (cum : number) (ladder : list AggregatedLevel) : list AggregatedLevel :=
  match ladder with
  | [] => []
  | lv :: rest =>
      let cum' := add cum (agg_volume lv) in
      {| agg_price := agg_price lv; agg_volume := agg_volume lv; total := cum' |}
        :: cumulate cum' rest
  end.

Record FormattedOrderbook : Type := {
  fmt_bids : list AggregatedLevel;
  fmt_asks : list AggregatedLevel;
  maxTotal : number
}.

Definition filterByRange (depthRangePercent midPriceCalc : number)
    (orders : list PriceLevel) : list PriceLevel :=
  if ge depthRangePercent (of_Z 20) then orders
  else
    let rangeLimit := mul midPriceCalc (div depthRangePercent (of_Z 100)) in
    filter (fun l => le (abs (sub (price l) midPriceCalc)) rangeLimit) orders.

Definition lastTotal (ladder : list AggregatedLevel) : number :=
  match rev ladder with
  | [] => zero
  | lv :: _ => total lv
  end.

(** [formatOrderbookData].  [depth] is the integer that [slice] reads from
    the [depth] prop, which is [parseInt] of the depth input: any integer,
    negative ones included; NaN (an empty input) reads as 0. *)
Definition formatOrderbookData (orderbook : option Snapshot)
    (depthRangePercent tickSize : number) (depth : Z) : FormattedOrderbook :=
  match orderbook with
  | None => {| fmt_bids := []; fmt_asks := []; maxTotal := zero |}
  | Some ob =>
      let rawBids := bids ob in
      let rawAsks := asks ob in
      let bestBidPrice := match rawBids with l :: _ => price l | [] => zero end in
      let bestAskPrice := match rawAsks with l :: _ => price l | [] => zero end in
      let midPriceCalc := div (add bestBidPrice bestAskPrice) (of_Z 2) in
      let filteredBids := filterByRange depthRangePercent midPriceCalc rawBids in
      let filteredAsks := filterByRange depthRangePercent midPriceCalc rawAsks in
      let bids0 := slice_to depth (aggregateByTickSize filteredBids tickSize true) in
      let asks0 := slice_to depth (aggregateByTickSize filteredAsks tickSize false) in
      let bids1 := rev bids0 in
      let bids2 := cumulate zero bids1 in
      let asks2 := cumulate zero asks0 in
      {| fmt_bids := bids2; fmt_asks := asks2;
         maxTotal := max2 (lastTotal bids2) (lastTotal asks2) |}
  end.

(** [bestBid] is the last entry of the bid ladder, [bestAsk] the first entry
    of the ask ladder. *)
Definition bestBidEntry (f : FormattedOrderbook) : option AggregatedLevel :=
  match rev (fmt_bids f) with [] => None | lv :: _ => Some lv end.

Definition bestAskEntry (f : FormattedOrderbook) : option AggregatedLevel :=
  match fmt_asks f with [] => None | lv :: _ => Some lv end.

(** The ladders listed from the best price outward. *)
Definition bidsFromBest (f : FormattedOrderbook) : list AggregatedLevel := rev (fmt_bids f).
Definition asksFromBest (f : FormattedOrderbook) : list AggregatedLevel := fmt_asks f.

(** A sequence of cumulative totals that never decreases from one entry to
    the next. *)
Fixpoint nondecreasing (xs : list number) : bool :=
  match xs with
  | [] => true
  | x :: rest =>
      match rest with
      | [] => true
      | y :: _ => le x y && nondecreasing rest
      end
  end.

(* ===================================================================== *)
(** ** Anomaly detector (the detection effect of the live feed) *)
(* ===================================================================== *)

Definition LARGE_ORDER_THRESHOLD : number := of_Z 2.
Definition WHALE_THRESHOLD : number := of_Z 5.
Definition SPOOF_DETECTION_WINDOW : Z := 3000.
Definition HEATMAP_HISTORY_SIZE : nat := 30.

Inductive ChangeType : Type := added | removed.
Inductive Side : Type := bid | ask.

(** A flash flag [{ type, side }]. *)
Record Change : Type := { change_type : ChangeType; change_side : Side }.

(** A liquidity sample [{ time, volume }]. *)
Record Sample : Type := { s_time : Z; s_volume : number }.

(** A spoof alert [{ price, maxVol, time }]. *)
Record SpoofAlert : Type := { alert_price : number; alert_maxVol : number; alert_time : Z }.

(** A heatmap capture [{ time, bids, asks }]. *)
Record HeatSnapshot : Type := {
  heat_time : Z;
  heat_bids : list PriceLevel;
  heat_asks : list PriceLevel
}.

(** The refs and state cells the detection effect reads and writes. *)
Record DetectorState : Type := {
  lastProcessed : option nat;
  volumeHistory_bids : list number;
  volumeHistory_asks : list number;
  rollingAvg_bid : number;
  rollingAvg_ask : number;
  recentLiquidity : JSMap.t (list Sample);
  flashingPrices : JSMap.t Change;
  whaleOrders : JSSet.t;
  spoofAlerts : list SpoofAlert;
  heatmapData : list HeatSnapshot
}.

Definition initialDetectorState : DetectorState := {|
  lastProcessed := None;
  volumeHistory_bids := [];
  volumeHistory_asks := [];
  rollingAvg_bid := zero;
  rollingAvg_ask := zero;
  recentLiquidity := JSMap.empty;
  flashingPrices := JSMap.empty;
  whaleOrders := JSSet.empty;
  spoofAlerts := [];
  heatmapData := []
|}.

Definition levelEntries (levels : list PriceLevel) : list (number * number) :=
  map (fun l => (price l, volume l)) levels.

(** [xs.length > 0 ? xs.reduce((a, b) => a + b, 0) / xs.length : 0] *)
Definition average (xs : list number) : number :=
  if (0 <? length xs)%nat then div (sum xs) (of_nat (length xs)) else zero.

(** [m.get(price) || 0] *)
Definition getOrZero (k : number) (m : JSMap.t number) : number :=
  match JSMap.get k m with
  | Some v => or_zero v
  | None => zero
  end.

Definition markChanges (ty : ChangeType) (side : Side) (threshold : number)
    (other : JSMap.t number) (changes : JSMap.t Change) (e : number * number)
    : JSMap.t Change :=
  let diff := sub (snd e) (getOrZero (fst e) other) in
  if gt diff threshold
  then JSMap.set (fst e) {| change_type := ty; change_side := side |} changes
  else changes.

Definition detectChanges (current previous : list PriceLevel) (side : Side)
    : JSMap.t Change * number :=
  let currentMap := JSMap.of_entries (levelEntries current) in
  let prevMap := JSMap.of_entries (levelEntries previous) in
  let allSizes := JSMap.values currentMap in
  let avgSize := average allSizes in
  let threshold := mul avgSize LARGE_ORDER_THRESHOLD in
  let changes0 :=
    fold_left (markChanges added side threshold prevMap)
              (JSMap.entries currentMap) JSMap.empty in
  let changes1 :=
    fold_left (markChanges removed side threshold currentMap)
              (JSMap.entries prevMap) changes0 in
  (changes1, avgSize).

(** [new Map([...bidResult.changes, ...askResult.changes])] *)
Definition mergeChanges (bidChanges askChanges : JSMap.t Change) : JSMap.t Change :=
  JSMap.of_entries (JSMap.entries bidChanges ++ JSMap.entries askChanges).

(** [hist.push(...volumes)] followed by the cut to the last 100 samples. *)
Definition pushVolumes (hist volumes : list number) : list number :=
  let hist' := hist ++ volumes in
  if (100 <? length hist')%nat then slice_last 100 hist' else hist'.

Definition addWhales (rollingAvg : number) (whales : JSSet.t) (l : PriceLevel) : JSSet.t :=
  if gt (volume l) (mul rollingAvg WHALE_THRESHOLD)
  then JSSet.add (price l) whales
  else whales.

Definition detectWhales (bidRollingAvg askRollingAvg : number)
    (ob : Snapshot) : JSSet.t :=
  let newWhales := fold_left (addWhales bidRollingAvg) (bids ob) JSSet.empty in
  fold_left (addWhales askRollingAvg) (asks ob) newWhales.

Definition young (now : Z) (h : Sample) : bool :=
  (now - s_time h <? SPOOF_DETECTION_WINDOW)%Z.

Definition sampleAt (i : nat) (xs : list Sample) : Sample :=
  nth i xs {| s_time := 0; s_volume := S754_nan |}.

(** The condition under which the loop body pushes an alert for the
    retained samples [filtered]. *)
Definition spoofCondition (avgVol : number) (filtered : list Sample) : bool :=
  if (2 <=? length filtered)%nat then
    let maxVol := max_list (map s_volume filtered) in
    let minVol := min_list (map s_volume filtered) in
    if gt maxVol (mul avgVol (of_Z 3)) && lt minVol (mul avgVol (dec 5 1)) then
      let timeDiff :=
        (s_time (sampleAt (length filtered - 1) filtered)
         - s_time (sampleAt 0 filtered))%Z in
      (timeDiff <? SPOOF_DETECTION_WINDOW)%Z
    else false
  else false.

(** One iteration of the loop over [[...bids, ...asks]].  [history.push]
    writes into the array the map already holds, when it holds one. *)
Definition spoofStep (now : Z) (avgVol : number)
    (acc : JSMap.t (list Sample) * list SpoofAlert) (l : PriceLevel)
    : JSMap.t (list Sample) * list SpoofAlert :=
  let liquidityMap := fst acc in
  let detectedSpoofs := snd acc in
  let stored := JSMap.get (price l) liquidityMap in
  let history :=
    (match stored with Some h => h | None => [] end)
      ++ [{| s_time := now; s_volume := volume l |}] in
  let liquidityMap1 :=
    match stored with
    | Some _ => JSMap.set (price l) history liquidityMap
    | None => liquidityMap
    end in
  let filtered := filter (young now) history in
  if (0 <? length filtered)%nat then
    let liquidityMap2 := JSMap.set (price l) filtered liquidityMap1 in
    if spoofCondition avgVol filtered
    then (liquidityMap2,
          detectedSpoofs ++
            [{| alert_price := price l;
                alert_maxVol := max_list (map s_volume filtered);
                alert_time := now |}])
    else (liquidityMap2, detectedSpoofs)
  else (JSMap.delete (price l) liquidityMap1, detectedSpoofs).

Definition spoofPass (now : Z) (avgVol : number) (ob : Snapshot)
    (liquidityMap : JSMap.t (list Sample))
    : JSMap.t (list Sample) * list SpoofAlert :=
  fold_left (spoofStep now avgVol) (bids ob ++ asks ob) (liquidityMap, []).

Definition heatCapture (now : Z) (ob : Snapshot) : HeatSnapshot :=
  {| heat_time := now;
     heat_bids := firstn 15 (bids ob);
     heat_asks := firstn 15 (asks ob) |}.

(** The body of the detection effect, past its guards. *)
Definition detectorUpdate (now : Z) (orderbook prevOrderbook : Snapshot)
    (st : DetectorState) : DetectorState :=
  let bidResult := detectChanges (bids orderbook) (bids prevOrderbook) bid in
  let askResult := detectChanges (asks orderbook) (asks prevOrderbook) ask in
  let allChanges := mergeChanges (fst bidResult) (fst askResult) in
  let histBids := pushVolumes (volumeHistory_bids st) (map volume (bids orderbook)) in
  let histAsks := pushVolumes (volumeHistory_asks st) (map volume (asks orderbook)) in
  let bidRollingAvg := average histBids in
  let askRollingAvg := average histAsks in
  let newWhales := detectWhales bidRollingAvg askRollingAvg orderbook in
  let avgVol := div (add bidRollingAvg askRollingAvg) (of_Z 2) in
  let spoof := spoofPass now avgVol orderbook (recentLiquidity st) in
  {| lastProcessed := Some (snap_ref orderbook);
     volumeHistory_bids := histBids;
     volumeHistory_asks := histAsks;
     rollingAvg_bid := bidRollingAvg;
     rollingAvg_ask := askRollingAvg;
     recentLiquidity := fst spoof;
     flashingPrices :=
       if (0 <? JSMap.size allChanges)%nat then allChanges else flashingPrices st;
     whaleOrders := newWhales;
     spoofAlerts :=
       if (0 <? length (snd spoof))%nat
       then firstn 10 (snd spoof ++ spoofAlerts st)
       else spoofAlerts st;
     heatmapData :=
       slice_last HEATMAP_HISTORY_SIZE (heatmapData st ++ [heatCapture now orderbook]) |}.

(** The detection effect with its guards: both snapshots present, live mode,
    and a snapshot that was not processed already. *)
Definition detectionEffect (now : Z) (isReplayMode : bool)
    (orderbook prevOrderbook : option Snapshot) (st : DetectorState) : DetectorState :=
  match orderbook, prevOrderbook with
  | Some ob, Some prev =>
      if isReplayMode then st
      else match lastProcessed st with
           | Some r => if Nat.eqb r (snap_ref ob) then st
                       else detectorUpdate now ob prev st
           | None => detectorUpdate now ob prev st
           end
  | _, _ => st
  end.

(** The whale criterion in the words of the specification: the price of a
    level of the given side whose volume strictly exceeds five times that
    side's rolling average. *)
Definition isWhalePrice (rollingAvg : number) (levels : list PriceLevel) (p : number) : Prop :=
  exists l, In l levels
            /\ gt (volume l) (mul rollingAvg (of_Z 5)) = true
            /\ same_value_zero p (price l) = true.

(** The alert condition without the time-span test. *)
Definition spoofConditionNoSpan (avgVol : number) (filtered : list Sample) : bool :=
  (2 <=? length filtered)%nat
  && gt (max_list (map s_volume filtered)) (mul avgVol (of_Z 3))
  && lt (min_list (map s_volume filtered)) (mul avgVol (dec 5 1)).

(** The samples kept for a level: the stored ones and the new one, purged. *)
Definition retainedSamples (now : Z) (liquidityMap : JSMap.t (list Sample))
    (l : PriceLevel) : list Sample :=
  filter (young now)
    ((match JSMap.get (price l) liquidityMap with Some h => h | None => [] end)
       ++ [{| s_time := now; s_volume := volume l |}]).

(** Every sample the map holds is younger than the window. *)
Definition allYoung (now : Z) (m : JSMap.t (list Sample)) : Prop :=
  forall k samples h, In (k, samples) (JSMap.entries m) -> In h samples ->
    (now - s_time h < SPOOF_DETECTION_WINDOW)%Z.

(* ===================================================================== *)
(** ** Replay controller *)
(* ===================================================================== *)

Definition MAX_SNAPSHOTS : nat := 300.

(** [Math.ceil(n / d)] on array lengths. *)
Definition ceilDiv (n d : nat) : nat :=
  (n / d + (if (n mod d =? 0)%nat then 0 else 1))%nat.

(** The stride of the downsampling, [Math.ceil(data.length / MAX_SNAPSHOTS)]. *)
Definition strideOf (n : nat) : nat := ceilDiv n MAX_SNAPSHOTS.

(** [processedData] of the history fetch. *)
Definition downsample {A : Type} (data : list A) : list A :=
  if (MAX_SNAPSHOTS <? length data)%nat then
    let step := strideOf (length data) in
    filter_index (fun idx => (idx mod step =? 0)%nat) data
  else data.

(** The replay cells of the component.  [currentTime] is [null] or the time
    of a [Date], in milliseconds. *)
Record ReplayState : Type := {
  history : list Snapshot;
  historyIndex : Z;
  orderbook : option Snapshot;
  currentTime : option Z;
  isPlaying : bool
}.

(** [arr[i]] for an integer [i]: [undefined] outside the array. *)
Definition atIndex {A : Type} (l : list A) (i : Z) : option A :=
  if (i <? 0)%Z then None else nth_error l (Z.to_nat i).

(** The reset the history effect performs before it fetches. *)
Definition resetForLoad (st : ReplayState) : ReplayState :=
  {| history := []; historyIndex := 0; orderbook := None;
     currentTime := currentTime st; isPlaying := false |}.

(** The state after the history fetch resolves with the array [data]. *)
Definition historyLoaded (data : list Snapshot) (st : ReplayState) : ReplayState :=
  let st0 := resetForLoad st in
  let processedData := downsample data in
  match processedData with
  | first :: _ =>
      {| history := processedData; historyIndex := historyIndex st0;
         orderbook := Some first; currentTime := Some (timestamp first);
         isPlaying := isPlaying st0 |}
  | [] =>
      {| history := processedData; historyIndex := historyIndex st0;
         orderbook := orderbook st0; currentTime := currentTime st0;
         isPlaying := isPlaying st0 |}
  end.

(** Moves the view to [history[newIndex]]; reading [.timestamp] of
    [undefined] throws, which is [None]. *)
Definition showIndex (st : ReplayState) (newIndex : Z) : option ReplayState :=
  match atIndex (history st) newIndex with
  | Some snap =>
      Some {| history := history st; historyIndex := newIndex;
              orderbook := Some snap; currentTime := Some (timestamp snap);
              isPlaying := isPlaying st |}
  | None => None
  end.

(** [handleSeek], for the integer [index] that [parseInt] reads from the
    slider event. *)
Definition handleSeek (index : Z) (st : ReplayState) : ReplayState :=
  match atIndex (history st) index with
  | Some snap =>
      {| history := history st; historyIndex := index;
         orderbook := Some snap; currentTime := Some (timestamp snap);
         isPlaying := isPlaying st |}
  | None =>
      {| history := history st; historyIndex := index;
         orderbook := orderbook st; currentTime := currentTime st;
         isPlaying := isPlaying st |}
  end.

(** The loop of [handleJumpBack]: [n] is [i + 1], so the loop ends when [n]
    reaches [0].  The result is the final [newIndex]; [None] is the
    [TypeError] of reading [history[i].timestamp] beyond the array. *)
Fixpoint jumpBackLoop (hist : list Snapshot) (targetTime : Z) (n : nat)
    (newIndex : Z) : option Z :=
  match n with
  | O => Some newIndex
  | S i =>
      match nth_error hist i with
      | None => None
      | Some snap =>
          if (timestamp snap <=? targetTime)%Z then Some (Z.of_nat i)
          else jumpBackLoop hist targetTime i (Z.of_nat i)
      end
  end.

Definition handleJumpBack (st : ReplayState) : option ReplayState :=
  match history st, currentTime st with
  | [], _ => Some st
  | _, None => Some st
  | _ :: _, Some ct =>
      let targetTime := (ct - 10000)%Z in
      match jumpBackLoop (history st) targetTime
              (Z.to_nat (historyIndex st)) (historyIndex st) with
      | None => None
      | Some newIndex =>
          if (newIndex =? historyIndex st)%Z then Some st
          else showIndex st newIndex
      end
  end.

(** The loop of [handleJumpForward] over the snapshots from index [i] on. *)
Fixpoint jumpForwardLoop (rest : list Snapshot) (targetTime : Z) (i : Z)
    (newIndex : Z) : Z :=
  match rest with
  | [] => newIndex
  | snap :: rest' =>
      if (targetTime <=? timestamp snap)%Z then i
      else jumpForwardLoop rest' targetTime (i + 1) i
  end.

Definition handleJumpForward (st : ReplayState) : option ReplayState :=
  match history st, currentTime st with
  | [], _ => Some st
  | _, None => Some st
  | _ :: _, Some ct =>
      let targetTime := (ct + 10000)%Z in
      if (historyIndex st + 1 <? 0)%Z then None
      else
        let newIndex :=
          jumpForwardLoop (skipn (Z.to_nat (historyIndex st + 1)) (history st))
            targetTime (historyIndex st + 1) (historyIndex st) in
        if (newIndex =? historyIndex st)%Z then Some st
        else showIndex st newIndex
  end.

(* ===================================================================== *)
(** ** Vocabulary of the statements *)
(* ===================================================================== *)

(** The timestamp of [history[i]], for stating the jump properties. *)
Definition timeAt (hist : list Snapshot) (i : Z) : option Z :=
  option_map timestamp (atIndex hist i).

(** A replay state the controller can be in while a history is shown: the
    index is inside the history. *)
Definition indexInRange (st : ReplayState) : Prop :=
  (0 <= historyIndex st < Z.of_nat (length (history st)))%Z.

(** A list is a subsequence of another: same order, some elements left out. *)
Inductive Subsequence {A : Type} : list A -> list A -> Prop :=
| subseq_nil : Subsequence [] []
| subseq_skip : forall x l1 l2, Subsequence l1 l2 -> Subsequence l1 (x :: l2)
| subseq_keep : forall x l1 l2, Subsequence l1 l2 -> Subsequence (x :: l1) (x :: l2).

(** Snapshot [k] of the history passes the test of the backward scan
    ([snapTime <= targetTime]), respectively of the forward scan
    ([snapTime >= targetTime]). *)
Definition qualifiesBack (hist : list Snapshot) (targetTime k : Z) : Prop :=
  exists t, timeAt hist k = Some t /\ (t <= targetTime)%Z.

Definition qualifiesForward (hist : list Snapshot) (targetTime k : Z) : Prop :=
  exists t, timeAt hist k = Some t /\ (targetTime <= t)%Z.

(** [j] is the first qualifying snapshot met when walking back from [idx]. *)
Definition firstQualifyingBack (hist : list Snapshot) (targetTime idx j : Z) : Prop :=
  (0 <= j < idx)%Z
  /\ qualifiesBack hist targetTime j
  /\ forall k, (j < k < idx)%Z -> ~ qualifiesBack hist targetTime k.

Definition noneQualifiesBack (hist : list Snapshot) (targetTime idx : Z) : Prop :=
  forall k, (0 <= k < idx)%Z -> ~ qualifiesBack hist targetTime k.

(** [j] is the first qualifying snapshot met when walking forward from [idx]. *)
Definition firstQualifyingForward (hist : list Snapshot) (targetTime idx j : Z) : Prop :=
  (idx < j < Z.of_nat (length hist))%Z
  /\ qualifiesForward hist targetTime j
  /\ forall k, (idx < k < j)%Z -> ~ qualifiesForward hist targetTime k.

Definition noneQualifiesForward (hist : list Snapshot) (targetTime idx : Z) : Prop :=
  forall k, (idx < k < Z.of_nat (length hist))%Z -> ~ qualifiesForward hist targetTime k.

(** The view shows snapshot [historyIndex] of the history. *)
Definition viewAtIndex (st : ReplayState) : Prop :=
  orderbook st = atIndex (history st) (historyIndex st)
  /\ currentTime st = timeAt (history st) (historyIndex st).

(** What a jump leaves alone, and how the view follows the index: the
    history and the play state are kept; a changed index comes with the
    view of the new snapshot, an unchanged index with an unchanged state. *)
Definition jumpFrame (st st' : ReplayState) : Prop :=
  history st' = history st
  /\ isPlaying st' = isPlaying st
  /\ (historyIndex st' <> historyIndex st -> viewAtIndex st')
  /\ (historyIndex st' = historyIndex st -> st' = st).

(** Distance from index [i] to the next multiple of [step]. *)
Definition phase (step i : nat) : nat := ((step - i mod step) mod step)%nat.

(** No two entries of a map have the same key. *)
Fixpoint distinctKeys {V : Type} (m : JSMap.t V) : Prop :=
  match m with
  | [] => True
  | (k, _) :: m' => JSMap.get k m' = None /\ distinctKeys m'
  end.

(** A change map with distinct keys whose flags all carry the tag [side]. *)
Definition sidedChanges (side : Side) (m : JSMap.t Change) : Prop :=
  distinctKeys m /\ Forall (fun c => change_side c = side) (JSMap.values m).

(** [setWhaleOrders(whales)] *)
Definition setWhaleOrders (whales : JSSet.t) (st : DetectorState) : DetectorState :=
  {| lastProcessed := lastProcessed st;
     volumeHistory_bids := volumeHistory_bids st;
     volumeHistory_asks := volumeHistory_asks st;
     rollingAvg_bid := rollingAvg_bid st;
     rollingAvg_ask := rollingAvg_ask st;
     recentLiquidity := recentLiquidity st;
     flashingPrices := flashingPrices st;
     whaleOrders := whales;
     spoofAlerts := spoofAlerts st;
     heatmapData := heatmapData st |}.

(** The samples the map holds for the price of a level ([get(price) || []])
    and the sample pushed for it. *)
Definition storedSamples (liquidityMap : JSMap.t (list Sample)) (l : PriceLevel)
    : list Sample :=
  match JSMap.get (price l) liquidityMap with Some h => h | None => [] end.

Definition freshSample (now : Z) (l : PriceLevel) : Sample :=
  {| s_time := now; s_volume := volume l |}.

(** The alert the spoof loop pushes for a level. *)
Definition spoofAlertFor (now : Z) (l : PriceLevel) (filtered : list Sample) : SpoofAlert :=
  {| alert_price := price l;
     alert_maxVol := max_list (map s_volume filtered);
     alert_time := now |}.

(** The map holds, for price [k], a non-empty list of samples that are all
    younger than the window. *)
Definition freshSamplesAt (now : Z) (m : JSMap.t (list Sample)) (k : number) : Prop :=
  exists samples,
    JSMap.get k m = Some samples
    /\ samples <> []
    /\ forall h, In h samples -> (now - s_time h < SPOOF_DETECTION_WINDOW)%Z.

Definition reaggregate (orders : list PriceLevel) (tickSize : number)
    (isBid : bool) : list AggregatedLevel :=
  aggregateByTickSize (asOrders (aggregateByTickSize orders tickSize isBid))
    tickSize isBid.

(** A bucket that the tick rounding maps to itself and whose volume reads
    back unchanged. *)
Definition stableBucket (tickSize : number) (isBid : bool) (a : AggregatedLevel) : Prop :=
  key_of (roundedPrice (parseFloat_of_number (agg_price a)) tickSize isBid)
  = agg_price a
  /\ parseFloat_of_number (agg_volume a) = agg_volume a.

(** The map entry of a bucket. *)
Definition bucketEntry (a : AggregatedLevel) : number * number :=
  (agg_price a, agg_volume a).

(** Every entry is followed by one the comparator does not want before it. *)
Fixpoint inSortOrder {A : Type} (cmp : A -> A -> number) (l : list A) : Prop :=
  match l with
  | [] => True
  | x :: rest =>
      match rest with
      | [] => True
      | y :: _ => gt (cmp x y) zero = false
      end /\ inSortOrder cmp rest
  end.

(** The keys of a map are stored keys: [-0] does not occur. *)
Definition storedKeys {V : Type} (m : JSMap.t V) : Prop :=
  Forall (fun e => key_of (fst e) = fst e) m.

(* ===================================================================== *)
(** ** Example inputs *)
(* ===================================================================== *)

(** A three-snapshot history, one second apart, shown at its last entry. *)
Definition snapshotAt (ref : nat) (t : Z) : Snapshot :=
  {| snap_ref := ref; bids := []; asks := []; timestamp := t |}.

Definition shortHistory : list Snapshot :=
  [snapshotAt 0 0; snapshotAt 1 1000; snapshotAt 2 2000].

Definition replayAtEnd : ReplayState :=
  {| history := shortHistory; historyIndex := 2;
     orderbook := Some (snapshotAt 2 2000); currentTime := Some 2000%Z;
     isPlaying := false |}.

Definition replayAtStart : ReplayState :=
  {| history := shortHistory; historyIndex := 0;
     orderbook := Some (snapshotAt 0 0); currentTime := Some 0%Z;
     isPlaying := true |}.

(** The state [handleSeek] leaves when it is called with 5 on the
    three-snapshot history, a value the slider does not send. *)
Definition seekBeyondEnd : ReplayState := handleSeek 5 replayAtStart.

(** Levels with integer prices and volumes, for the examples. *)
Definition level (p v : Z) : PriceLevel := {| price := of_Z p; volume := of_Z v |}.

Definition liveSnapshot (ref : nat) (bs as_ : list PriceLevel) : Snapshot :=
  {| snap_ref := ref; bids := bs; asks := as_; timestamp := 0 |}.

(** A touching book: price 100 is both the bid that shrinks from 50 to 1 and
    the ask that grows from 1 to 10. *)
Definition touchingBefore : Snapshot :=
  liveSnapshot 1 [level 100 50] [level 100 1; level 101 1; level 102 1].

Definition touchingAfter : Snapshot :=
  liveSnapshot 2 [level 100 1] [level 100 10; level 101 1; level 102 1].

(** Three pushes of the live feed: the level at price 100 is in the second
    book and gone from the third, which arrives five seconds later. *)
Definition feedFirst : Snapshot := liveSnapshot 1 [level 99 1] [level 101 1].
Definition feedSecond : Snapshot := liveSnapshot 2 [level 100 1] [level 101 1].
Definition feedThird : Snapshot := liveSnapshot 3 [level 99 1] [level 101 1].

Definition afterFeedSecond : DetectorState :=
  detectionEffect 1000 false (Some feedSecond) (Some feedFirst)
    (detectionEffect 0 false (Some feedFirst) None initialDetectorState).

Definition afterFeedThird : DetectorState :=
  detectionEffect 6000 false (Some feedThird) (Some feedSecond) afterFeedSecond.

(** A four-level book one unit wide on each side, formatted with the
    default settings of the component: 5 % depth range, tick 1, depth 20. *)
Definition smallBook : Snapshot :=
  liveSnapshot 1 [level 100 1; level 99 2] [level 101 1; level 102 2].

Definition smallLadders : FormattedOrderbook :=
  formatOrderbookData (Some smallBook) (of_Z 5) (of_Z 1) 20.

(** One ask at 97234.11 with volume 1.5, and one bid at 0.59 with volume
    1.5; the tick sizes 0.1 and 0.01 are two of the selectable ones. *)
Definition askQuote : list PriceLevel :=
  [{| price := dec 9723411 2; volume := dec 15 1 |}].

Definition bidQuote : list PriceLevel :=
  [{| price := dec 59 2; volume := dec 15 1 |}].

(** Three bids between 99 and 101, for tick size 1. *)
Definition unitBids : list PriceLevel :=
  [{| price := dec 1005 1; volume := dec 15 1 |};
   {| price := dec 1002 1; volume := of_Z 2 |};
   {| price := dec 997 1; volume := of_Z 1 |}].

(* ===================================================================== *)
(** ** Further functions of the components *)
(* ===================================================================== *)

(** The callback of the playback timer: [setHistoryIndex((prev) => ...)].
    Past the last snapshot it stops the playback and keeps the index;
    otherwise it shows [history[next]].  Reading [.timestamp] of
    [undefined] throws, which is [None]. *)
Definition playbackTick (st : ReplayState) : option ReplayState :=
  let next := (historyIndex st + 1)%Z in
  if (Z.of_nat (length (history st)) <=? next)%Z then
    Some {| history := history st; historyIndex := historyIndex st;
            orderbook := orderbook st; currentTime := currentTime st;
            isPlaying := false |}
  else showIndex st next.

(** One period of the playback effect: the timer only exists while the
    component is playing, in replay mode, with a non-empty history. *)
Definition playbackStep (isReplayMode : bool) (st : ReplayState) : option ReplayState :=
  if negb (isPlaying st) || negb isReplayMode || (length (history st) =? 0)%nat
  then Some st
  else playbackTick st.

(** [n] periods of the playback effect in replay mode. *)
Fixpoint playTicks (n : nat) (st : ReplayState) : option ReplayState :=
  match n with
  | O => Some st
  | S n' =>
      match playbackStep true st with
      | Some st' => playTicks n' st'
      | None => None
      end
  end.

(** [calculateImbalance]: [{ ratio, bidTotal, askTotal }]. *)
Record Imbalance : Type := { ratio : number; bidTotal : number; askTotal : number }.

Definition volumeTotal (levels : list PriceLevel) : number :=
  fold_left (fun sum l => add sum (volume l)) levels zero.

Definition calculateImbalance (ob : option Snapshot) (imbalanceDepth : nat) : Imbalance :=
  match ob with
  | None => {| ratio := dec 5 1; bidTotal := zero; askTotal := zero |}
  | Some ob =>
      let bidLevels := firstn imbalanceDepth (bids ob) in
      let askLevels := firstn imbalanceDepth (asks ob) in
      let bidTotal := volumeTotal bidLevels in
      let askTotal := volumeTotal askLevels in
      let total := add bidTotal askTotal in
      {| ratio := if gt total zero then div bidTotal total else dec 5 1;
         bidTotal := bidTotal;
         askTotal := askTotal |}
  end.

(** [Math.abs(l.price - price) < tickSize] *)
Definition levelNear (tickSize p : number) (l : PriceLevel) : bool :=
  lt (abs (sub (price l) p)) tickSize.

(** The loop of [getHeatmapIntensity] that counts the captures holding a
    level near the price. *)
Definition countPresence (tickSize p : number) (heat : list HeatSnapshot) : nat :=
  fold_left
    (fun totalPresence snapshot =>
       match find (levelNear tickSize p) (heat_bids snapshot ++ heat_asks snapshot) with
       | Some _ => S totalPresence
       | None => totalPresence
       end)
    heat 0%nat.

Definition getHeatmapIntensity (heat : list HeatSnapshot) (tickSize p : number) : number :=
  if (length heat =? 0)%nat then zero
  else div (of_nat (countPresence tickSize p heat)) (of_nat (length heat)).

(** A candle of the price strip: [{ time, open, high, low, close }], with
    [time] in seconds. *)
Record Candle : Type := {
  c_time : Z;
  c_open : number;
  c_high : number;
  c_low : number;
  c_close : number
}.

(** [Math.floor((replayDate.getTime() - 2 * 60 * 60 * 1000) / 1000)] *)
Definition sinceTime (replayMs : Z) : Z := ((replayMs - 2 * 60 * 60 * 1000) / 1000)%Z.

(** [displayCandles] of [fetchCandles]: the candles up to the replay time,
    cut to the last 60. *)
Definition displayCandles (replayMs : Z) (formattedCandles : list Candle) : list Candle :=
  let replayUnix := (replayMs / 1000)%Z in
  let filteredCandles := filter (fun c => (c_time c <=? replayUnix)%Z) formattedCandles in
  slice_last 60 filteredCandles.

Definition closeAt (i : nat) (candles : list Candle) : number :=
  match nth_error candles i with Some c => c_close c | None => S754_nan end.

Definition priceChange (candles : list Candle) : number :=
  if (2 <=? length candles)%nat
  then sub (closeAt (length candles - 1) candles) (closeAt 0 candles)
  else zero.

Definition isPositive (candles : list Candle) : bool := ge (priceChange candles) zero.

(** The replay view is consistent: the index is inside the history and the
    snapshot and time shown are those of [history[historyIndex]]. *)
Definition replayInvariant (st : ReplayState) : Prop :=
  indexInRange st /\ viewAtIndex st.

(** A number that is not below zero: NaN, a zero of either sign, or a
    positive value. *)
Definition notNegative (x : number) : bool := negb (lt x zero).

(** A number whose sign bit is clear, or NaN. *)
Definition signClear (x : number) : bool :=
  match x with
  | S754_nan => true
  | S754_zero s | S754_infinity s | S754_finite s _ _ => negb s
  end.

(** A finite number above zero. *)
Definition positiveFinite (x : number) : bool :=
  match x with
  | S754_finite false _ _ => true
  | _ => false
  end.

(** A list ends with another one. *)
Definition Suffix {A : Type} (tail l : list A) : Prop := exists front, l = front ++ tail.

(** A state in the middle of a ten-snapshot history, playing. *)
Definition tenHistory : list Snapshot :=
  map (fun k => snapshotAt k (Z.of_nat k * 4000)) (seq 0 10).

Definition replayMidway : ReplayState :=
  {| history := tenHistory; historyIndex := 4;
     orderbook := Some (snapshotAt 4 16000); currentTime := Some 16000%Z;
     isPlaying := true |}.

(** A book with bids only, and one with asks only. *)
Definition bidsOnlyBook : Snapshot := liveSnapshot 7 [level 100 3; level 99 2] [].
Definition asksOnlyBook : Snapshot := liveSnapshot 8 [] [level 101 3; level 102 2].

(** A window of two captures that both hold a level at price 100. *)
Definition steadyWindow : list HeatSnapshot :=
  [heatCapture 1000 smallBook; heatCapture 2000 smallBook].

(** The effect that runs when the symbol changes: the detection cells and
    the three refs are cleared; [lastProcessedRef] is left as it is. *)
Definition symbolReset (st : DetectorState) : DetectorState :=
  {| lastProcessed := lastProcessed st;
     volumeHistory_bids := [];
     volumeHistory_asks := [];
     rollingAvg_bid := zero;
     rollingAvg_ask := zero;
     recentLiquidity := JSMap.empty;
     flashingPrices := JSMap.empty;
     whaleOrders := JSSet.empty;
     spoofAlerts := [];
     heatmapData := [] |}.

(** The effect on [isReplayMode]: entering replay mode clears the four
    state cells and keeps the refs. *)
Definition replayModeClear (isReplayMode : bool) (st : DetectorState) : DetectorState :=
  if isReplayMode then
    {| lastProcessed := lastProcessed st;
       volumeHistory_bids := volumeHistory_bids st;
       volumeHistory_asks := volumeHistory_asks st;
       rollingAvg_bid := rollingAvg_bid st;
       rollingAvg_ask := rollingAvg_ask st;
       recentLiquidity := recentLiquidity st;
       flashingPrices := JSMap.empty;
       whaleOrders := JSSet.empty;
       spoofAlerts := [];
       heatmapData := [] |}
  else st.

(** What can happen to the detection cells: the detection effect runs with
    some clock and inputs, the symbol changes, or the mode changes. *)
Inductive DetectorEvent : Type :=
| effectRun (now : Z) (isReplayMode : bool) (orderbook prevOrderbook : option Snapshot)
| symbolChanged
| modeChanged (isReplayMode : bool).

Definition detectorStep (st : DetectorState) (ev : DetectorEvent) : DetectorState :=
  match ev with
  | effectRun now isReplayMode orderbook prevOrderbook =>
      detectionEffect now isReplayMode orderbook prevOrderbook st
  | symbolChanged => symbolReset st
  | modeChanged isReplayMode => replayModeClear isReplayMode st
  end.

(** The cells after a sequence of events, from the initial render. *)
Definition detectorRun (events : list DetectorEvent) : DetectorState :=
  fold_left detectorStep events initialDetectorState.

(** The sizes the detection cells are cut to. *)
Definition withinCaps (st : DetectorState) : Prop :=
  (length (volumeHistory_bids st) <= 100)%nat
  /\ (length (volumeHistory_asks st) <= 100)%nat
  /\ (length (spoofAlerts st) <= 10)%nat
  /\ (length (heatmapData st) <= HEATMAP_HISTORY_SIZE)%nat
  /\ Forall (fun h => (length (heat_bids h) <= 15)%nat
                      /\ (length (heat_asks h) <= 15)%nat) (heatmapData st).

(** The flag [detectChanges] leaves at a price, read off the two maps: a
    shrink seen from the previous book wins over a growth seen from the
    current one. *)
Definition expectedChange (currentMap prevMap : JSMap.t number)
    (threshold : number) (side : Side) (p : number) : option Change :=
  let grown :=
    match JSMap.get p currentMap with
    | Some vol =>
        if gt (sub vol (getOrZero p prevMap)) threshold
        then Some {| change_type := added; change_side := side |}
        else None
    | None => None
    end in
  match JSMap.get p prevMap with
  | Some vol =>
      if gt (sub vol (getOrZero p currentMap)) threshold
      then Some {| change_type := removed; change_side := side |}
      else grown
  | None => grown
  end.

(** A liquidity history that holds one old sample of 50 at price 100, and
    a book whose level at that price has dropped to 0. *)
Definition pulledLiquidity : JSMap.t (list Sample) :=
  [(of_Z 100, [{| s_time := 0; s_volume := of_Z 50 |}])].

Definition pulledBook : Snapshot := liveSnapshot 5 [level 100 0] [level 101 1].

(** A capture holds a level near the price. *)
Definition holdsNear (tickSize p : number) (snapshot : HeatSnapshot) : bool :=
  existsb (levelNear tickSize p) (heat_bids snapshot ++ heat_asks snapshot).

(** The rolling statistics in the words of the specification: the window is
    the most recent 100 samples, the rolling average its arithmetic mean,
    the samples added up in their order and divided by their number (0 for
    an empty window). *)
Definition mostRecent {A : Type} (n : nat) (samples : list A) : list A :=
  rev (firstn n (rev samples)).

Fixpoint addUp (acc : number) (samples : list number) : number :=
  match samples with
  | [] => acc
  | x :: rest => addUp (add acc x) rest
  end.

Definition arithmeticMean (samples : list number) : number :=
  match samples with
  | [] => zero
  | _ :: _ => div (addUp zero samples) (of_nat (length samples))
  end.

(** The window of a side after an update on the snapshot levels [levels]. *)
Definition updatedWindow (window : list number) (levels : list PriceLevel) : list number :=
  mostRecent 100 (window ++ map volume levels).

(** Nine earlier samples of volume 1 and a book whose only bid has volume
    10 (at price 100), with one ask of volume 1. *)
Definition quietWindow : DetectorState :=
  {| lastProcessed := None;
     volumeHistory_bids := repeat (of_Z 1) 9;
     volumeHistory_asks := repeat (of_Z 1) 9;
     rollingAvg_bid := of_Z 1;
     rollingAvg_ask := of_Z 1;
     recentLiquidity := JSMap.empty;
     flashingPrices := JSMap.empty;
     whaleOrders := JSSet.add (of_Z 98) JSSet.empty;
     spoofAlerts := [];
     heatmapData := [] |}.

Definition whaleBook : Snapshot := liveSnapshot 9 [level 100 10] [level 101 1].

(** The value the timeline slider hands to [handleSeek]: a range input with
    [min="0"] and [max={Math.max(history.length - 1, 0)}] keeps its value
    between the two, wherever the thumb is dragged or the keys send it. *)
Definition sliderValue (hist : list Snapshot) (position : Z) : Z :=
  Z.max 0 (Z.min (Z.max (Z.of_nat (length hist) - 1) 0) position).

(** A seek request: the slider is disabled while the history is empty, and
    otherwise calls [handleSeek] with its value. *)
Definition seekRequest (position : Z) (st : ReplayState) : ReplayState :=
  if (length (history st) =? 0)%nat then st
  else handleSeek (sliderValue (history st) position) st.

(** The mid price of [formatOrderbookData] and the ladder of a side before
    it is cut to [depth]. *)
Definition midPriceOf (ob : Snapshot) : number :=
  div (add (match bids ob with l :: _ => price l | [] => zero end)
           (match asks ob with l :: _ => price l | [] => zero end))
      (of_Z 2).

Definition aggregatedSide (ob : Snapshot) (depthRangePercent tickSize : number)
    (isBid : bool) : list AggregatedLevel :=
  aggregateByTickSize
    (filterByRange depthRangePercent (midPriceOf ob)
       (if isBid then bids ob else asks ob))
    tickSize isBid.

(** The number of elements [slice(0, n)] keeps of an array of [len]. *)
Definition keptBySlice (n : Z) (len : nat) : Z :=
  if (n <? 0)%Z then Z.max 0 (Z.of_nat len + n) else Z.min n (Z.of_nat len).

(* ===================================================================== *)
(** * Properties of the replay controller *)
(* ===================================================================== *)

Section Downsampling.

Variable A : Type.

Lemma succ_mod (i step : nat) :
  (0 < step)%nat ->
  (S i mod step = if (S (i mod step) =? step)%nat then 0 else S (i mod step))%nat.
Proof.
  intros Hs.
  pose proof (Nat.div_mod_eq i step) as Hi.
  pose proof (Nat.mod_upper_bound i step ltac:(lia)) as Hr.
  destruct (Nat.eqb_spec (S (i mod step)) step) as [E | E].
  - symmetry. apply Nat.mod_unique with (q := S (i / step)); lia.
  - symmetry. apply Nat.mod_unique with (q := (i / step)%nat); lia.
Qed.

Lemma phase_zero (step i : nat) :
  (0 < step)%nat -> (i mod step = 0)%nat ->
  phase step i = 0%nat /\ (phase step (S i) = step - 1)%nat.
Proof.
  intros Hs H0. unfold phase. rewrite (succ_mod i Hs), H0, Nat.sub_0_r.
  split.
  - apply Nat.Div0.mod_same.
  - destruct (Nat.eqb_spec 1 step) as [E | E].
    + subst step. reflexivity.
    + rewrite Nat.mod_small; lia.
Qed.

Lemma phase_succ (step i : nat) :
  (0 < step)%nat -> (i mod step <> 0)%nat ->
  phase step i = S (phase step (S i)).
Proof.
  intros Hs H0. unfold phase. rewrite (succ_mod i Hs).
  pose proof (Nat.mod_upper_bound i step ltac:(lia)) as Hr.
  destruct (Nat.eqb_spec (S (i mod step)) step) as [E | E].
  - rewrite Nat.sub_0_r, Nat.Div0.mod_same.
    rewrite (Nat.mod_small (step - i mod step) step); lia.
  - rewrite (Nat.mod_small (step - i mod step) step) by lia.
    rewrite (Nat.mod_small (step - S (i mod step)) step) by lia.
    lia.
Qed.

Lemma filter_index_from_nth (step : nat) (l : list A) :
  (0 < step)%nat ->
  forall i k,
    nth_error (filter_index_from (fun idx => (idx mod step =? 0)%nat) i l) k
    = nth_error l (phase step i + k * step).
Proof.
  intros Hs. induction l as [| x l IH]; intros i k.
  - simpl. now destruct k; destruct (phase step i + _)%nat.
  - simpl. destruct (Nat.eqb_spec (i mod step) 0) as [E | E].
    + destruct (phase_zero i Hs E) as [P0 P1]. rewrite P0.
      destruct k as [| k]; [ reflexivity |].
      simpl. rewrite IH, P1.
      replace (step + k * step)%nat with (S (step - 1 + k * step)) by lia.
      reflexivity.
    + rewrite IH, (phase_succ i Hs E). reflexivity.
Qed.

Lemma filter_index_nth (step : nat) (l : list A) (k : nat) :
  (0 < step)%nat ->
  nth_error (filter_index (fun idx => (idx mod step =? 0)%nat) l) k
  = nth_error l (k * step).
Proof.
  intros Hs. unfold filter_index. rewrite (filter_index_from_nth l Hs 0 k).
  unfold phase. rewrite Nat.Div0.mod_0_l, Nat.sub_0_r, Nat.Div0.mod_same.
  reflexivity.
Qed.

Lemma filter_index_from_subsequence (p : nat -> bool) (l : list A) :
  forall i, Subsequence (filter_index_from p i l) l.
Proof.
  induction l as [| x l IH]; intros i; simpl.
  - constructor.
  - destruct (p i); constructor; apply IH.
Qed.

Lemma strideOf_bounds (n : nat) :
  (n <= MAX_SNAPSHOTS * strideOf n)%nat /\ ((0 < n)%nat -> (0 < strideOf n)%nat).
Proof.
  unfold strideOf, ceilDiv, MAX_SNAPSHOTS.
  pose proof (Nat.div_mod_eq n 300) as Hn.
  pose proof (Nat.mod_upper_bound n 300 ltac:(lia)) as Hr.
  destruct (Nat.eqb_spec (n mod 300) 0); lia.
Qed.

End Downsampling.

Lemma nth_error_last (A : Type) (l : list A) (d : A) :
  l <> [] -> nth_error l (length l - 1) = Some (last l d).
Proof.
  intros Hne.
  rewrite (app_removelast_last d Hne) at 1 2.
  rewrite length_app, nth_error_app2; simpl; [| lia].
  replace (length (removelast l) + 1 - 1 - length (removelast l))%nat with 0%nat by lia.
  reflexivity.
Qed.

Lemma downsample_nth (A : Type) (data : list A) (k : nat) :
  (MAX_SNAPSHOTS < length data)%nat ->
  nth_error (downsample data) k = nth_error data (k * strideOf (length data)).
Proof.
  intros Hlen. unfold downsample.
  destruct (Nat.ltb_spec MAX_SNAPSHOTS (length data)); [| lia].
  apply filter_index_nth. apply strideOf_bounds. lia.
Qed.

(** The stride computed on integers is the one the engine computes in
    binary64, [Math.ceil(data.length / 300)], here at a few lengths. *)
Example stride_in_binary64 :
  forall n, In n [301; 302; 600; 601; 900; 4321]%nat ->
    ceil (div (of_nat n) (of_nat MAX_SNAPSHOTS)) = of_nat (strideOf n).
Proof.
  intros n Hn. simpl in Hn.
  repeat (destruct Hn as [<- | Hn]; [vm_compute; reflexivity |]).
  contradiction.
Qed.

(** C5: a fetched history of more than 300 entries is cut down to the
    entries at the indices divisible by the stride [ceil(n/300)], the one
    integer [s] with [300 * (s - 1) < n <= 300 * s]: entry [k] of the result
    is entry [k * s] of the input and there is nothing beyond; the result
    has at most 300 entries, starts with the first snapshot and is a
    subsequence of the input.  A history of at most 300 entries is kept as
    it is. *)
Theorem downsample_keeps_every_stride (A : Type) (data : list A) :
  ((MAX_SNAPSHOTS < length data)%nat ->
     exists stride,
       (300 * (stride - 1) < length data <= 300 * stride)%nat
       /\ (forall k, nth_error (downsample data) k
                     = nth_error data (k * stride))
       /\ (length (downsample data) <= 300)%nat
       /\ nth_error (downsample data) 0 = nth_error data 0
       /\ Subsequence (downsample data) data)
  /\ ((length data <= MAX_SNAPSHOTS)%nat -> downsample data = data).
Proof.
  split; intros Hlen.
  - exists (strideOf (length data)).
    destruct (strideOf_bounds (length data)) as [Hub Hpos].
    assert (Hs : (0 < strideOf (length data))%nat) by (apply Hpos; lia).
    assert (Hnth : forall k, nth_error (downsample data) k
                             = nth_error data (k * strideOf (length data)))
      by (intros k; now apply downsample_nth).
    split; [| split; [exact Hnth | split; [| split]]].
    + split; [| exact Hub].
      unfold strideOf, ceilDiv, MAX_SNAPSHOTS.
      pose proof (Nat.div_mod_eq (length data) 300) as Hn.
      pose proof (Nat.mod_upper_bound (length data) 300 ltac:(lia)) as Hr.
      unfold MAX_SNAPSHOTS in Hlen.
      destruct (Nat.eqb_spec (length data mod 300) 0); lia.
    + apply nth_error_None. rewrite Hnth. apply nth_error_None. exact Hub.
    + rewrite Hnth. reflexivity.
    + unfold downsample.
      destruct (Nat.ltb_spec MAX_SNAPSHOTS (length data)); [| lia].
      apply filter_index_from_subsequence.
  - unfold downsample.
    destruct (Nat.ltb_spec MAX_SNAPSHOTS (length data)); [lia | reflexivity].
Qed.

Lemma downsample_keeps_every_stride_witness :
  (forall k, nth_error (downsample (seq 0 900)) k = nth_error (seq 0 900) (k * 3))
  /\ nth_error (downsample (seq 0 900)) 299 = Some 897%nat
  /\ nth_error (downsample (seq 0 900)) 300 = None
  /\ downsample (seq 0 7) = seq 0 7.
Proof.
  destruct (downsample_keeps_every_stride (seq 0 900)) as [Hbig _].
  destruct (downsample_keeps_every_stride (seq 0 7)) as [_ Hsmall].
  assert (H900 : (MAX_SNAPSHOTS < length (seq 0 900))%nat)
    by (rewrite length_seq; unfold MAX_SNAPSHOTS; lia).
  assert (H7 : (length (seq 0 7) <= MAX_SNAPSHOTS)%nat)
    by (rewrite length_seq; unfold MAX_SNAPSHOTS; lia).
  destruct (Hbig H900) as (stride & Hstride & Hnth & _).
  rewrite length_seq in Hstride.
  assert (stride = 3%nat) by lia. subst stride.
  split; [exact Hnth |].
  split; [rewrite Hnth; reflexivity |].
  split; [rewrite Hnth; reflexivity |].
  exact (Hsmall H7).
Defined.

(** C9: downsampling can lose the final snapshot.  For a history of more
    than 300 snapshots whose last index [n - 1] is not a multiple of the
    stride [ceil(n/300)] (for instance [n = 302], stride 2), no entry of the
    replay history comes from the last position of the input; when the
    snapshots are distinct, the last fetched snapshot is not in the replay
    history at all. *)
Theorem downsample_drops_last (A : Type) (data : list A) (d : A) :
  (MAX_SNAPSHOTS < length data)%nat ->
  ((length data - 1) mod strideOf (length data) <> 0)%nat ->
  (forall k, nth_error (downsample data) k
             = nth_error data (k * strideOf (length data))
             /\ (k * strideOf (length data) <> length data - 1)%nat)
  /\ (NoDup data -> ~ In (last data d) (downsample data)).
Proof.
  intros Hlen Hmod.
  assert (Hpos : forall k, (k * strideOf (length data) <> length data - 1)%nat).
  { intros k Hk. apply Hmod. rewrite <- Hk. apply Nat.Div0.mod_mul. }
  split.
  - intros k. split; [now apply downsample_nth | apply Hpos].
  - intros Hnd Hin.
    apply In_nth_error in Hin. destruct Hin as [k Hk].
    rewrite (downsample_nth data k Hlen) in Hk.
    assert (Hne : data <> []) by (intros ->; simpl in Hlen; lia).
    pose proof (nth_error_last d Hne) as Hlast.
    apply (Hpos k). symmetry.
    eapply (proj1 (NoDup_nth_error data) Hnd).
    + destruct data; [congruence | simpl; lia].
    + congruence.
Qed.

Lemma downsample_drops_last_witness :
  (MAX_SNAPSHOTS < length (seq 0 302))%nat
  /\ ((length (seq 0 302) - 1) mod strideOf (length (seq 0 302)) <> 0)%nat
  /\ ~ In (last (seq 0 302) 0%nat) (downsample (seq 0 302)).
Proof.
  assert (H302 : (MAX_SNAPSHOTS < length (seq 0 302))%nat)
    by (rewrite length_seq; unfold MAX_SNAPSHOTS; lia).
  assert (Hmod : ((length (seq 0 302) - 1) mod strideOf (length (seq 0 302)) <> 0)%nat)
    by (rewrite length_seq; vm_compute; discriminate).
  split; [exact H302 |]. split; [exact Hmod |].
  destruct (downsample_drops_last (seq 0 302) 0%nat H302 Hmod) as [_ Hlast].
  apply Hlast. apply seq_NoDup.
Defined.

Section Jumps.

Variable hist : list Snapshot.
Variable targetTime : Z.

Lemma timeAt_nat (k : nat) :
  timeAt hist (Z.of_nat k) = option_map timestamp (nth_error hist k).
Proof.
  unfold timeAt, atIndex.
  destruct (Z.ltb_spec (Z.of_nat k) 0); [lia |].
  now rewrite Nat2Z.id.
Qed.

Lemma jumpBackLoop_spec (n : nat) (newIndex : Z) :
  (0 < n <= length hist)%nat ->
  exists j : nat,
    jumpBackLoop hist targetTime n newIndex = Some (Z.of_nat j)
    /\ (j < n)%nat
    /\ (forall p s, (j < p < n)%nat -> nth_error hist p = Some s ->
                    (targetTime < timestamp s)%Z)
    /\ ((exists s, nth_error hist j = Some s /\ (timestamp s <= targetTime)%Z)
        \/ (j = 0%nat
            /\ forall p s, (p < n)%nat -> nth_error hist p = Some s ->
                           (targetTime < timestamp s)%Z)).
Proof.
  revert newIndex. induction n as [| i IH]; intros newIndex [Hpos Hle]; [lia |].
  simpl.
  destruct (nth_error hist i) as [snap |] eqn:Hsnap.
  2: { apply nth_error_None in Hsnap. lia. }
  destruct (Z.leb_spec (timestamp snap) targetTime) as [Hq | Hq].
  - exists i. repeat split; [lia | intros; lia |].
    left. now exists snap.
  - destruct i as [| i'].
    + exists 0%nat. simpl. repeat split; [lia | intros; lia |].
      right. split; [reflexivity |].
      intros p s Hp Hs. assert (p = 0%nat) by lia. subst p. congruence.
    + destruct (IH (Z.of_nat (S i')) ltac:(lia)) as (j & Hj & Hlt & Hbetween & Hend).
      exists j. repeat split; [exact Hj | lia | |].
      * intros p s Hp Hs.
        destruct (Nat.eq_dec p (S i')) as [-> | Hne]; [congruence |].
        apply (Hbetween p s); [lia | exact Hs].
      * destruct Hend as [Hfound | [Hz Hnone]]; [now left | right].
        split; [exact Hz |].
        intros p s Hp Hs.
        destruct (Nat.eq_dec p (S i')) as [-> | Hne]; [congruence |].
        apply (Hnone p s); [lia | exact Hs].
Qed.

Lemma jumpForwardLoop_spec (rest : list Snapshot) :
  rest <> [] ->
  forall (i newIndex : Z),
  exists q : nat,
    jumpForwardLoop rest targetTime i newIndex = (i + Z.of_nat q)%Z
    /\ (q < length rest)%nat
    /\ (forall p s, (p < q)%nat -> nth_error rest p = Some s ->
                    (timestamp s < targetTime)%Z)
    /\ ((exists s, nth_error rest q = Some s /\ (targetTime <= timestamp s)%Z)
        \/ (q = (length rest - 1)%nat
            /\ forall p s, nth_error rest p = Some s ->
                           (timestamp s < targetTime)%Z)).
Proof.
  induction rest as [| snap rest' IH]; intros Hne i newIndex; [congruence |].
  simpl.
  destruct (Z.leb_spec targetTime (timestamp snap)) as [Hq | Hq].
  - exists 0%nat. repeat split; [lia | simpl; lia | intros; lia |].
    left. now exists snap.
  - destruct rest' as [| snap' rest''].
    + exists 0%nat. simpl. repeat split; [lia | lia | intros; lia |].
      right. split; [reflexivity |].
      intros [| p] s Hs; simpl in Hs; [congruence | now destruct p].
    + destruct (IH ltac:(discriminate) (i + 1)%Z i)
        as (q & Hj & Hlt & Hbefore & Hend).
      exists (S q). repeat split.
      * rewrite Hj. lia.
      * simpl in *. lia.
      * intros [| p] s Hp Hs; simpl in Hs; [congruence |].
        apply (Hbefore p s); [lia | exact Hs].
      * destruct Hend as [Hfound | [Hz Hnone]]; [now left | right].
        split; [simpl in *; lia |].
        intros [| p] s Hs; simpl in Hs; [congruence |].
        now apply (Hnone p s).
Qed.

End Jumps.

Lemma handleJumpBack_unfold (st : ReplayState) (ct : Z) :
  history st <> [] -> currentTime st = Some ct ->
  handleJumpBack st =
    match jumpBackLoop (history st) (ct - 10000)
            (Z.to_nat (historyIndex st)) (historyIndex st) with
    | None => None
    | Some newIndex =>
        if (newIndex =? historyIndex st)%Z then Some st else showIndex st newIndex
    end.
Proof.
  intros Hne Hct. unfold handleJumpBack. rewrite Hct.
  destruct (history st); [congruence | reflexivity].
Qed.

Lemma handleJumpForward_unfold (st : ReplayState) (ct : Z) :
  history st <> [] -> currentTime st = Some ct -> (0 <= historyIndex st)%Z ->
  handleJumpForward st =
    let newIndex :=
      jumpForwardLoop (skipn (Z.to_nat (historyIndex st + 1)) (history st))
        (ct + 10000) (historyIndex st + 1) (historyIndex st) in
    if (newIndex =? historyIndex st)%Z then Some st else showIndex st newIndex.
Proof.
  intros Hne Hct Hidx. unfold handleJumpForward. rewrite Hct.
  destruct (history st); [congruence |].
  destruct (Z.ltb_spec (historyIndex st + 1) 0); [lia | reflexivity].
Qed.

Lemma showIndex_in_range (st : ReplayState) (j : Z) :
  (0 <= j < Z.of_nat (length (history st)))%Z ->
  exists st', showIndex st j = Some st'
              /\ history st' = history st
              /\ isPlaying st' = isPlaying st
              /\ historyIndex st' = j
              /\ viewAtIndex st'.
Proof.
  intros Hj. unfold showIndex, viewAtIndex, timeAt.
  destruct (atIndex (history st) j) as [snap |] eqn:Hat.
  - eexists. split; [reflexivity |]. simpl. rewrite Hat. repeat split.
  - unfold atIndex in Hat.
    destruct (Z.ltb_spec j 0); [lia |].
    apply nth_error_None in Hat. lia.
Qed.

Lemma jumpFrame_refl (st : ReplayState) : jumpFrame st st.
Proof.
  unfold jumpFrame. split; [reflexivity |]. split; [reflexivity |].
  split; [intros H; now elim H | reflexivity].
Qed.

Lemma jumpFrame_moved (st st' : ReplayState) :
  history st' = history st -> isPlaying st' = isPlaying st ->
  historyIndex st' <> historyIndex st -> viewAtIndex st' ->
  jumpFrame st st'.
Proof.
  unfold jumpFrame. intros Hh Hp Hne Hv.
  split; [exact Hh |]. split; [exact Hp |].
  split; [intros _; exact Hv | intros E; now elim Hne].
Qed.

Lemma jumpBack_result (st : ReplayState) (ct : Z) :
  indexInRange st -> currentTime st = Some ct ->
  exists st',
    handleJumpBack st = Some st'
    /\ jumpFrame st st'
    /\ (firstQualifyingBack (history st) (ct - 10000)
          (historyIndex st) (historyIndex st')
        \/ (noneQualifiesBack (history st) (ct - 10000) (historyIndex st)
            /\ historyIndex st' = 0%Z)).
Proof.
  intros Hrange Hct. unfold indexInRange in Hrange.
  assert (Hne : history st <> [])
    by (intros E; rewrite E in Hrange; simpl in Hrange; lia).
  rewrite (handleJumpBack_unfold st Hne Hct).
  destruct (Z.eq_dec (historyIndex st) 0) as [Hz | Hnz].
  - rewrite Hz. simpl. exists st. split; [reflexivity |].
    split; [apply jumpFrame_refl |]. right. split; [| exact Hz].
    intros k Hk. lia.
  - destruct (jumpBackLoop_spec (history st) (ct - 10000)
                (n := Z.to_nat (historyIndex st)) (historyIndex st) ltac:(lia))
      as (j & Hloop & Hlt & Hbetween & Hend).
    rewrite Hloop.
    destruct (Z.eqb_spec (Z.of_nat j) (historyIndex st)) as [E | _]; [lia |].
    destruct (showIndex_in_range st (j := Z.of_nat j) ltac:(lia))
      as (st' & Hshow & Hhist & Hplay & Hidx & Hview).
    exists st'. split; [exact Hshow |].
    split; [apply jumpFrame_moved; auto; lia |].
    rewrite Hidx.
    assert (Hnot : forall k, (Z.of_nat j < k < historyIndex st)%Z ->
                             ~ qualifiesBack (history st) (ct - 10000) k).
    { intros k Hk (t & Ht & Hle).
      replace k with (Z.of_nat (Z.to_nat k)) in Ht by lia.
      rewrite timeAt_nat in Ht.
      destruct (nth_error (history st) (Z.to_nat k)) as [s |] eqn:Hs;
        [| discriminate].
      injection Ht as <-.
      pose proof (Hbetween (Z.to_nat k) s ltac:(lia) Hs). lia. }
    destruct Hend as [(s & Hs & Hle) | (Hz & Hnone)].
    + left. repeat split; [lia | lia | | exact Hnot].
      exists (timestamp s). rewrite timeAt_nat, Hs. now split.
    + right. split; [| lia].
      intros k Hk (t & Ht & Hle).
      replace k with (Z.of_nat (Z.to_nat k)) in Ht by lia.
      rewrite timeAt_nat in Ht.
      destruct (nth_error (history st) (Z.to_nat k)) as [s |] eqn:Hs;
        [| discriminate].
      injection Ht as <-.
      pose proof (Hnone (Z.to_nat k) s ltac:(lia) Hs). lia.
Qed.

Lemma jumpForward_result (st : ReplayState) (ct : Z) :
  indexInRange st -> currentTime st = Some ct ->
  exists st',
    handleJumpForward st = Some st'
    /\ jumpFrame st st'
    /\ (firstQualifyingForward (history st) (ct + 10000)
          (historyIndex st) (historyIndex st')
        \/ (noneQualifiesForward (history st) (ct + 10000) (historyIndex st)
            /\ historyIndex st' = (Z.of_nat (length (history st)) - 1)%Z)).
Proof.
  intros Hrange Hct. unfold indexInRange in Hrange.
  assert (Hne : history st <> [])
    by (intros E; rewrite E in Hrange; simpl in Hrange; lia).
  rewrite (handleJumpForward_unfold st Hne Hct) by lia. cbv zeta.
  set (m := Z.to_nat (historyIndex st + 1)).
  destruct (Z.eq_dec (historyIndex st) (Z.of_nat (length (history st)) - 1))
    as [Hlast | Hnlast].
  - rewrite (skipn_all2 (n := m) (history st)) by lia. simpl.
    rewrite Z.eqb_refl. exists st. split; [reflexivity |].
    split; [apply jumpFrame_refl |]. right. split; [| exact Hlast].
    intros k Hk. lia.
  - assert (Hrest : skipn m (history st) <> []).
    { intros E. apply skipn_all_iff in E. lia. }
    destruct (jumpForwardLoop_spec (ct + 10000) Hrest
                (historyIndex st + 1) (historyIndex st))
      as (q & Hloop & Hlt & Hbefore & Hend).
    rewrite length_skipn in Hlt.
    rewrite Hloop.
    destruct (Z.eqb_spec (historyIndex st + 1 + Z.of_nat q) (historyIndex st))
      as [E | _]; [lia |].
    destruct (showIndex_in_range st (j := (historyIndex st + 1 + Z.of_nat q)%Z)
                ltac:(lia))
      as (st' & Hshow & Hhist & Hplay & Hidx & Hview).
    exists st'. split; [exact Hshow |].
    split; [apply jumpFrame_moved; auto; lia |].
    rewrite Hidx.
    assert (Hat : forall k, (historyIndex st < k)%Z ->
              timeAt (history st) k
              = option_map timestamp
                  (nth_error (skipn m (history st))
                     (Z.to_nat (k - (historyIndex st + 1))))).
    { intros k Hk. rewrite nth_error_skipn.
      replace k with (Z.of_nat (m + Z.to_nat (k - (historyIndex st + 1)))) at 1
        by lia.
      apply timeAt_nat. }
    assert (Hnot : forall k,
              (historyIndex st < k < historyIndex st + 1 + Z.of_nat q)%Z ->
              ~ qualifiesForward (history st) (ct + 10000) k).
    { intros k Hk (t & Ht & Hle).
      rewrite Hat in Ht by lia.
      destruct (nth_error (skipn m (history st))
                  (Z.to_nat (k - (historyIndex st + 1)))) as [s |] eqn:Hs;
        [| discriminate].
      injection Ht as <-.
      pose proof (Hbefore (Z.to_nat (k - (historyIndex st + 1))) s ltac:(lia) Hs).
      lia. }
    destruct Hend as [(s & Hs & Hle) | (Hq & Hnone)].
    + left. repeat split; [lia | lia | | exact Hnot].
      exists (timestamp s). rewrite Hat by lia.
      replace (Z.to_nat (historyIndex st + 1 + Z.of_nat q - (historyIndex st + 1)))
        with q by lia.
      rewrite Hs. now split.
    + right. rewrite length_skipn in Hq. split; [| lia].
      intros k Hk (t & Ht & Hle).
      rewrite Hat in Ht by lia.
      destruct (nth_error (skipn m (history st))
                  (Z.to_nat (k - (historyIndex st + 1)))) as [s |] eqn:Hs;
        [| discriminate].
      injection Ht as <-.
      pose proof (Hnone _ s Hs). lia.
Qed.

Lemma jump_without_history_or_time (st : ReplayState) :
  history st = [] \/ currentTime st = None ->
  handleJumpBack st = Some st /\ handleJumpForward st = Some st.
Proof.
  unfold handleJumpBack, handleJumpForward.
  intros [H | H]; rewrite H; [now split |].
  now destruct (history st).
Qed.

(** C2 (amended): from an index inside the history, jump-back and
    jump-forward stop at the first snapshot, walking outward from the
    current index, whose timestamp is at most (respectively at least) the
    target 10 s away.  When no snapshot in the scan direction qualifies the
    scan runs to the end of the history and the index lands there: on the
    first snapshot for a jump back, on the last one for a jump forward.  The
    history and the play state are kept, a moved index comes with the view
    of the new snapshot, and when the index does not move nothing changes.
    With an empty history or no current time both jumps do nothing. *)
Theorem jump_stops_at_first_qualifying_or_end (st : ReplayState) :
  (history st = [] \/ currentTime st = None ->
   handleJumpBack st = Some st /\ handleJumpForward st = Some st)
  /\ (forall ct,
        indexInRange st -> currentTime st = Some ct ->
        (exists st',
            handleJumpBack st = Some st'
            /\ jumpFrame st st'
            /\ (firstQualifyingBack (history st) (ct - 10000)
                  (historyIndex st) (historyIndex st')
                \/ (noneQualifiesBack (history st) (ct - 10000) (historyIndex st)
                    /\ historyIndex st' = 0%Z)))
        /\ (exists st',
            handleJumpForward st = Some st'
            /\ jumpFrame st st'
            /\ (firstQualifyingForward (history st) (ct + 10000)
                  (historyIndex st) (historyIndex st')
                \/ (noneQualifiesForward (history st) (ct + 10000) (historyIndex st)
                    /\ historyIndex st'
                       = (Z.of_nat (length (history st)) - 1)%Z)))).
Proof.
  split.
  - apply jump_without_history_or_time.
  - intros ct Hrange Hct. split.
    + now apply jumpBack_result.
    + now apply jumpForward_result.
Qed.

Lemma replayAtEnd_in_range : indexInRange replayAtEnd.
Proof. unfold indexInRange. simpl. lia. Qed.

Lemma jump_stops_at_first_qualifying_or_end_witness :
  indexInRange replayAtEnd
  /\ currentTime replayAtEnd = Some 2000%Z
  /\ exists st', handleJumpBack replayAtEnd = Some st'
                 /\ jumpFrame replayAtEnd st'.
Proof.
  split; [exact replayAtEnd_in_range |].
  split; [reflexivity |].
  destruct (jump_stops_at_first_qualifying_or_end replayAtEnd) as [_ Hjump].
  destruct (Hjump 2000%Z replayAtEnd_in_range eq_refl)
    as [(st' & Hback & Hframe & _) _].
  exists st'. split; [exact Hback | exact Hframe].
Defined.

Lemma noneQualifiesBack_replayAtEnd :
  noneQualifiesBack (history replayAtEnd) (2000 - 10000) (historyIndex replayAtEnd).
Proof.
  intros k Hk (t & Ht & Hle). simpl in Hk.
  assert (Hcases : k = 0%Z \/ k = 1%Z) by lia.
  destruct Hcases as [-> | ->]; vm_compute in Ht; injection Ht as <-; lia.
Qed.

Lemma noneQualifiesForward_replayAtStart :
  noneQualifiesForward (history replayAtStart) (0 + 10000) (historyIndex replayAtStart).
Proof.
  intros k Hk (t & Ht & Hle). simpl in Hk.
  assert (Hcases : k = 1%Z \/ k = 2%Z) by lia.
  destruct Hcases as [-> | ->]; vm_compute in Ht; injection Ht as <-; lia.
Qed.

(** C2, counterexample: in a three-snapshot history shown at its last entry
    (timestamps 0, 1000 and 2000 ms) no snapshot is 10 s older than the
    current one, and jump-back does not leave the index unchanged: it moves
    from 2 to 0.  From the first entry, where no snapshot is 10 s younger,
    jump-forward moves the index from 0 to 2. *)
Lemma jump_without_qualifying_snapshot_moves_index :
  (noneQualifiesBack (history replayAtEnd) (2000 - 10000) (historyIndex replayAtEnd)
   /\ option_map historyIndex (handleJumpBack replayAtEnd) = Some 0%Z
   /\ option_map historyIndex (handleJumpBack replayAtEnd)
      <> Some (historyIndex replayAtEnd))
  /\ (noneQualifiesForward (history replayAtStart) (0 + 10000)
        (historyIndex replayAtStart)
      /\ option_map historyIndex (handleJumpForward replayAtStart) = Some 2%Z
      /\ option_map historyIndex (handleJumpForward replayAtStart)
         <> Some (historyIndex replayAtStart)).
Proof.
  split.
  - split; [exact noneQualifiesBack_replayAtEnd |].
    split; [reflexivity | discriminate].
  - split; [exact noneQualifiesForward_replayAtStart |].
    split; [reflexivity | discriminate].
Qed.

Lemma handleSeek_in_range (st : ReplayState) (index : Z) :
  (0 <= index < Z.of_nat (length (history st)))%Z ->
  historyIndex (handleSeek index st) = index
  /\ indexInRange (handleSeek index st)
  /\ viewAtIndex (handleSeek index st)
  /\ (exists snap, orderbook (handleSeek index st) = Some snap
                   /\ currentTime (handleSeek index st) = Some (timestamp snap))
  /\ history (handleSeek index st) = history st
  /\ isPlaying (handleSeek index st) = isPlaying st.
Proof.
  intros Hidx. unfold handleSeek, indexInRange, viewAtIndex, timeAt.
  destruct (atIndex (history st) index) as [snap |] eqn:Hat.
  - simpl. rewrite Hat. repeat split; try lia. now exists snap.
  - unfold atIndex in Hat.
    destruct (Z.ltb_spec index 0); [lia |].
    apply nth_error_None in Hat. lia.
Qed.

Lemma sliderValue_in_range (hist : list Snapshot) (position : Z) :
  hist <> [] ->
  (0 <= sliderValue hist position < Z.of_nat (length hist))%Z
  /\ ((0 <= position < Z.of_nat (length hist))%Z ->
      sliderValue hist position = position).
Proof.
  intros Hne. unfold sliderValue.
  destruct hist as [| s0 rest]; [congruence |].
  cbn [length]. lia.
Qed.

(** C6: every seek request sets the replay index to a value within
    [0, history.length - 1] and at once shows [history[index]] (snapshot
    and time), whatever the play state, which it leaves as it is.  The
    bound is the one of the slider, whose value stays between its [min] and
    [max]; a position within that range is taken as it is.  So no seek
    leaves the index outside the history or the view on another snapshot
    than the one at the index. *)
Theorem seek_in_range_shows_snapshot (st : ReplayState) (position : Z) :
  history st <> [] ->
  let index := sliderValue (history st) position in
  seekRequest position st = handleSeek index st
  /\ (0 <= index < Z.of_nat (length (history st)))%Z
  /\ ((0 <= position < Z.of_nat (length (history st)))%Z -> index = position)
  /\ historyIndex (seekRequest position st) = index
  /\ indexInRange (seekRequest position st)
  /\ viewAtIndex (seekRequest position st)
  /\ (exists snap,
        atIndex (history st) index = Some snap
        /\ orderbook (seekRequest position st) = Some snap
        /\ currentTime (seekRequest position st) = Some (timestamp snap))
  /\ history (seekRequest position st) = history st
  /\ isPlaying (seekRequest position st) = isPlaying st.
Proof.
  intros Hne index.
  destruct (sliderValue_in_range position Hne) as [Hrange Hsame].
  fold index in Hrange, Hsame.
  assert (Hreq : seekRequest position st = handleSeek index st).
  { unfold seekRequest.
    destruct (Nat.eqb_spec (length (history st)) 0) as [E | E]; [| reflexivity].
    apply length_zero_iff_nil in E. congruence. }
  rewrite Hreq.
  destruct (handleSeek_in_range st Hrange) as (Hi & Hin & Hv & (snap & Ho & Ht) & Hh & Hp).
  split; [reflexivity |]. split; [exact Hrange |]. split; [exact Hsame |].
  split; [exact Hi |]. split; [exact Hin |]. split; [exact Hv |].
  split; [| split; [exact Hh | exact Hp]].
  exists snap. split; [| split; [exact Ho | exact Ht]].
  destruct Hv as [Hob _]. rewrite Hh, Hi, Ho in Hob. now symmetry.
Qed.

Lemma seek_in_range_shows_snapshot_witness :
  history replayAtEnd <> []
  /\ historyIndex (seekRequest 1 replayAtEnd) = 1%Z
  /\ historyIndex (seekRequest 5 replayAtEnd) = 2%Z
  /\ viewAtIndex (seekRequest 5 replayAtEnd).
Proof.
  assert (H : history replayAtEnd <> []) by discriminate.
  destruct (seek_in_range_shows_snapshot replayAtEnd 1 H) as (_ & _ & _ & H1 & _).
  destruct (seek_in_range_shows_snapshot replayAtEnd 5 H) as (_ & _ & _ & H5 & _ & Hv & _).
  exact (conj H (conj H1 (conj H5 Hv))).
Defined.

(* ===================================================================== *)
(** * Properties of number keys, maps and sets *)
(* ===================================================================== *)

Lemma same_value_zero_key (x y : number) :
  same_value_zero x y = true <-> key_of x = key_of y.
Proof.
  destruct x as [sx | sx | | sx mx ex], y as [sy | sy | | sy my ey];
    simpl; split; intros H; try reflexivity; try discriminate.
  - apply Bool.eqb_prop in H. now subst.
  - injection H as ->. apply Bool.eqb_reflx.
  - apply andb_prop in H. destruct H as [H He].
    apply andb_prop in H. destruct H as [Hs Hm].
    apply Bool.eqb_prop in Hs. apply Pos.eqb_eq in Hm. apply Z.eqb_eq in He.
    now subst.
  - injection H as -> -> ->.
    now rewrite Bool.eqb_reflx, Pos.eqb_refl, Z.eqb_refl.
Qed.

Lemma same_value_zero_refl (x : number) : same_value_zero x x = true.
Proof. now apply same_value_zero_key. Qed.

Lemma same_value_zero_sym (x y : number) :
  same_value_zero x y = same_value_zero y x.
Proof.
  destruct (same_value_zero x y) eqn:E1, (same_value_zero y x) eqn:E2;
    try reflexivity.
  - apply same_value_zero_key in E1. symmetry in E1.
    apply same_value_zero_key in E1. congruence.
  - apply same_value_zero_key in E2. symmetry in E2.
    apply same_value_zero_key in E2. congruence.
Qed.

Lemma same_value_zero_congr (x y z : number) :
  same_value_zero x y = true -> same_value_zero z x = same_value_zero z y.
Proof.
  intros Hxy. apply same_value_zero_key in Hxy.
  destruct (same_value_zero z x) eqn:E1, (same_value_zero z y) eqn:E2;
    try reflexivity.
  - apply same_value_zero_key in E1.
    assert (E : key_of z = key_of y) by congruence.
    apply same_value_zero_key in E. congruence.
  - apply same_value_zero_key in E2.
    assert (E : key_of z = key_of x) by congruence.
    apply same_value_zero_key in E. congruence.
Qed.

Lemma key_of_idem (x : number) : key_of (key_of x) = key_of x.
Proof. now destruct x. Qed.

Lemma same_value_zero_key_of (x y : number) :
  same_value_zero x (key_of y) = same_value_zero x y.
Proof.
  apply same_value_zero_congr. apply same_value_zero_key. apply key_of_idem.
Qed.

Section MapFacts.

Variable V : Type.
Implicit Types (m : JSMap.t V) (k : number) (v : V).

Lemma get_congr m k k' :
  same_value_zero k k' = true -> JSMap.get k m = JSMap.get k' m.
Proof.
  intros Hk. induction m as [| [k0 v0] m IH]; simpl; [reflexivity |].
  rewrite (same_value_zero_sym k k0), (same_value_zero_sym k' k0).
  rewrite (same_value_zero_congr _ _ k0 Hk), IH. reflexivity.
Qed.

Lemma get_set m k v k' :
  JSMap.get k' (JSMap.set k v m)
  = if same_value_zero k' k then Some v else JSMap.get k' m.
Proof.
  induction m as [| [k0 v0] m IH]; simpl.
  - now rewrite same_value_zero_key_of.
  - destruct (same_value_zero k k0) eqn:Hk; simpl.
    + rewrite (same_value_zero_congr _ _ k' Hk).
      now destruct (same_value_zero k' k0).
    + rewrite IH.
      destruct (same_value_zero k' k0) eqn:Hk0; [| reflexivity].
      destruct (same_value_zero k' k) eqn:Hk'; [| reflexivity].
      pose proof (same_value_zero_congr _ _ k0 Hk') as E.
      rewrite (same_value_zero_sym k0 k'), Hk0, (same_value_zero_sym k0 k), Hk in E.
      discriminate.
Qed.

Lemma get_set_same m k v : JSMap.get k (JSMap.set k v m) = Some v.
Proof. now rewrite get_set, same_value_zero_refl. Qed.

Lemma get_In m k v : JSMap.get k m = Some v -> In v (JSMap.values m).
Proof.
  induction m as [| [k0 v0] m IH]; simpl; [discriminate |].
  destruct (same_value_zero k k0); intros H.
  - injection H as ->. now left.
  - right. now apply IH.
Qed.

Lemma values_set (P : V -> Prop) m k v :
  P v -> Forall P (JSMap.values m) -> Forall P (JSMap.values (JSMap.set k v m)).
Proof.
  intros Hv. induction m as [| [k0 v0] m IH]; simpl; intros Hm.
  - now constructor.
  - inversion Hm as [| ? ? H0 Hm']; subst.
    destruct (same_value_zero k k0); simpl; constructor; auto.
Qed.

Lemma distinctKeys_set m k v : distinctKeys m -> distinctKeys (JSMap.set k v m).
Proof.
  induction m as [| [k0 v0] m IH]; simpl.
  - intros _. now split.
  - intros [Hfresh Hm].
    destruct (same_value_zero k k0) eqn:Hk; simpl.
    + now split.
    + split; [| now apply IH].
      rewrite get_set, same_value_zero_sym, Hk. exact Hfresh.
Qed.

(** Writing a list of entries into a map, one after the other. *)
Lemma get_putAll_absent (es : list (number * V)) k :
  JSMap.get k es = None ->
  forall m, JSMap.get k (fold_left (fun m e => JSMap.set (fst e) (snd e) m) es m)
            = JSMap.get k m.
Proof.
  induction es as [| [k0 v0] es IH]; simpl; intros Hk m; [reflexivity |].
  destruct (same_value_zero k k0) eqn:Hk0; [discriminate |].
  rewrite (IH Hk), get_set, Hk0. reflexivity.
Qed.

Lemma get_putAll_present (es : list (number * V)) k v :
  distinctKeys es -> JSMap.get k es = Some v ->
  forall m, JSMap.get k (fold_left (fun m e => JSMap.set (fst e) (snd e) m) es m)
            = Some v.
Proof.
  induction es as [| [k0 v0] es IH]; simpl; intros Hd Hk m; [discriminate |].
  destruct Hd as [Hfresh Hd].
  destruct (same_value_zero k k0) eqn:Hk0.
  - injection Hk as ->.
    rewrite get_putAll_absent.
    + now rewrite get_set, Hk0.
    + now rewrite (get_congr es k k0 Hk0).
  - now apply IH.
Qed.

End MapFacts.

Lemma set_has_add (s : JSSet.t) (k p : number) :
  JSSet.has p (JSSet.add k s) = same_value_zero p k || JSSet.has p s.
Proof.
  unfold JSSet.add. destruct (JSSet.has k s) eqn:Hk.
  - destruct (same_value_zero p k) eqn:Hp; [| reflexivity].
    simpl. unfold JSSet.has in *.
    apply existsb_exists in Hk. destruct Hk as (x & Hx & Hkx).
    apply existsb_exists. exists x. split; [exact Hx |].
    rewrite same_value_zero_sym in Hp.
    rewrite (same_value_zero_sym p x), <- (same_value_zero_congr _ _ x Hp).
    rewrite same_value_zero_sym. exact Hkx.
  - unfold JSSet.has. rewrite existsb_app. simpl.
    rewrite same_value_zero_key_of, orb_false_r. apply orb_comm.
Qed.

(* ===================================================================== *)
(** * Properties of the anomaly detector *)
(* ===================================================================== *)

(** The detection effect runs its body exactly when both snapshots are
    there, the component is in live mode and the snapshot is a new object. *)
Lemma detectionEffect_runs (now : Z) (ob prev : Snapshot) (st : DetectorState) :
  lastProcessed st <> Some (snap_ref ob) ->
  detectionEffect now false (Some ob) (Some prev) st = detectorUpdate now ob prev st.
Proof.
  intros Hnew. unfold detectionEffect.
  destruct (lastProcessed st) as [r |]; [| reflexivity].
  destruct (Nat.eqb_spec r (snap_ref ob)); [congruence | reflexivity].
Qed.

Lemma detectionEffect_skips (now : Z) (isReplayMode : bool)
    (ob prev : option Snapshot) (st : DetectorState) :
  ob = None \/ prev = None \/ isReplayMode = true
  \/ (exists o, ob = Some o /\ lastProcessed st = Some (snap_ref o)) ->
  detectionEffect now isReplayMode ob prev st = st.
Proof.
  unfold detectionEffect.
  intros [-> | [-> | [-> | (o & -> & Hlast)]]].
  - reflexivity.
  - now destruct ob.
  - now destruct ob, prev.
  - destruct prev; [| reflexivity]. destruct isReplayMode; [reflexivity |].
    rewrite Hlast, Nat.eqb_refl. reflexivity.
Qed.

Lemma has_fold_addWhales (avg : number) (levels : list PriceLevel) (p : number) :
  forall s,
    JSSet.has p (fold_left (addWhales avg) levels s) = true
    <-> JSSet.has p s = true \/ isWhalePrice avg levels p.
Proof.
  induction levels as [| l levels IH]; intros s; simpl.
  - split; [now left | intros [H | (l & [] & _)]; exact H].
  - rewrite IH. unfold addWhales, isWhalePrice, WHALE_THRESHOLD.
    destruct (gt (volume l) (mul avg (of_Z 5))) eqn:Hgt.
    + rewrite set_has_add. split.
      * intros [H | (l' & Hin & Hv & Hp)].
        -- apply orb_prop in H. destruct H as [H | H]; [| now left].
           right. exists l. simpl. auto.
        -- right. exists l'. simpl. auto.
      * intros [H | (l' & [<- | Hin] & Hv & Hp)].
        -- left. rewrite H. apply orb_true_r.
        -- left. rewrite Hp. reflexivity.
        -- right. now exists l'.
    + split.
      * intros [H | (l' & Hin & Hv & Hp)]; [now left |].
        right. exists l'. simpl. auto.
      * intros [H | (l' & [<- | Hin] & Hv & Hp)]; [now left | congruence |].
        right. now exists l'.
Qed.

Lemma addUp_sum (samples : list number) :
  forall acc, addUp acc samples = fold_left add samples acc.
Proof.
  induction samples as [| x rest IH]; intros acc; [reflexivity |].
  simpl. apply IH.
Qed.

Lemma average_mean (samples : list number) :
  average samples = arithmeticMean samples.
Proof.
  unfold average, arithmeticMean, sum.
  destruct samples as [| x rest]; [reflexivity |].
  now rewrite addUp_sum.
Qed.

Lemma pushVolumes_mostRecent (hist volumes : list number) :
  pushVolumes hist volumes = mostRecent 100 (hist ++ volumes).
Proof.
  unfold pushVolumes, mostRecent, slice_last.
  rewrite firstn_rev, rev_involutive.
  destruct (Nat.ltb_spec 100 (length (hist ++ volumes))) as [H | H];
    [reflexivity |].
  replace (length (hist ++ volumes) - 100)%nat with 0%nat by lia.
  reflexivity.
Qed.

(** C4: after an update of the anomaly detector the whale set holds exactly
    the prices of the bid levels whose volume strictly exceeds 5 times the
    bid rolling average and of the ask levels whose volume strictly exceeds
    5 times the ask rolling average.  The averages are the ones just
    recomputed: each is the arithmetic mean of the side's updated window,
    which is the most recent 100 of the earlier samples followed by the
    volumes of the current snapshot's side.  The set is built afresh, so
    whatever whale set was there before has no influence on it, and a price
    that no level of the current snapshot holds is not in it. *)
Theorem whale_set_is_recomputed (now : Z) (ob prev : Snapshot) (st : DetectorState) :
  let bidAverage :=
    arithmeticMean (updatedWindow (volumeHistory_bids st) (bids ob)) in
  let askAverage :=
    arithmeticMean (updatedWindow (volumeHistory_asks st) (asks ob)) in
  volumeHistory_bids (detectorUpdate now ob prev st)
    = updatedWindow (volumeHistory_bids st) (bids ob)
  /\ volumeHistory_asks (detectorUpdate now ob prev st)
    = updatedWindow (volumeHistory_asks st) (asks ob)
  /\ rollingAvg_bid (detectorUpdate now ob prev st) = bidAverage
  /\ rollingAvg_ask (detectorUpdate now ob prev st) = askAverage
  /\ (forall p,
        JSSet.has p (whaleOrders (detectorUpdate now ob prev st)) = true
        <-> isWhalePrice bidAverage (bids ob) p
            \/ isWhalePrice askAverage (asks ob) p)
  /\ (forall earlier,
        whaleOrders (detectorUpdate now ob prev (setWhaleOrders earlier st))
        = whaleOrders (detectorUpdate now ob prev st))
  /\ (forall p,
        (forall l, In l (bids ob ++ asks ob) -> same_value_zero p (price l) = false) ->
        JSSet.has p (whaleOrders (detectorUpdate now ob prev st)) = false).
Proof.
  intros bidAverage askAverage.
  assert (Hwb : volumeHistory_bids (detectorUpdate now ob prev st)
                = updatedWindow (volumeHistory_bids st) (bids ob))
    by apply pushVolumes_mostRecent.
  assert (Hwa : volumeHistory_asks (detectorUpdate now ob prev st)
                = updatedWindow (volumeHistory_asks st) (asks ob))
    by apply pushVolumes_mostRecent.
  assert (Hb : rollingAvg_bid (detectorUpdate now ob prev st) = bidAverage).
  { unfold bidAverage. rewrite <- Hwb. apply average_mean. }
  assert (Ha : rollingAvg_ask (detectorUpdate now ob prev st) = askAverage).
  { unfold askAverage. rewrite <- Hwa. apply average_mean. }
  assert (Hset : forall p,
             JSSet.has p (whaleOrders (detectorUpdate now ob prev st)) = true
             <-> isWhalePrice bidAverage (bids ob) p
                 \/ isWhalePrice askAverage (asks ob) p).
  { intros p. rewrite <- Hb, <- Ha.
    unfold detectorUpdate.
    cbn [whaleOrders rollingAvg_bid rollingAvg_ask]. unfold detectWhales.
    rewrite has_fold_addWhales, has_fold_addWhales.
    split.
    - intros [[H | H] | H]; [discriminate | now left | now right].
    - intros [H | H]; [left; now right | now right]. }
  split; [exact Hwb |]. split; [exact Hwa |].
  split; [exact Hb |]. split; [exact Ha |].
  split; [exact Hset |]. split; [reflexivity |].
  intros p Hp.
  destruct (JSSet.has p (whaleOrders (detectorUpdate now ob prev st))) eqn:E;
    [| reflexivity].
  apply Hset in E.
  destruct E as [(l & Hl & _ & Hpl) | (l & Hl & _ & Hpl)];
    rewrite (Hp l) in Hpl; try discriminate; apply in_or_app; auto.
Qed.

(** The check of the specification: nine earlier samples of 1 and a single
    bid of 10 give a bid average of 1.9, so the bid at 100 is a whale; the
    ask of 1 is not, and the price 98 of the earlier set is gone. *)
Example whale_against_quiet_window :
  rollingAvg_bid (detectorUpdate 0 whaleBook whaleBook quietWindow) = dec 19 1
  /\ JSSet.has (of_Z 100)
       (whaleOrders (detectorUpdate 0 whaleBook whaleBook quietWindow)) = true
  /\ JSSet.has (of_Z 101)
       (whaleOrders (detectorUpdate 0 whaleBook whaleBook quietWindow)) = false
  /\ JSSet.has (of_Z 98)
       (whaleOrders (detectorUpdate 0 whaleBook whaleBook quietWindow)) = false.
Proof. vm_compute. repeat split; reflexivity. Qed.

Section SpoofStep.

Variables (now : Z) (avgVol : number).
Variable liquidityMap : JSMap.t (list Sample).
Variable l : PriceLevel.

Lemma young_fresh : young now (freshSample now l) = true.
Proof.
  unfold young, freshSample, SPOOF_DETECTION_WINDOW. simpl.
  rewrite Z.sub_diag. reflexivity.
Qed.

Lemma retainedSamples_app :
  retainedSamples now liquidityMap l = filter (young now) (storedSamples liquidityMap l) ++ [(freshSample now l)].
Proof.
  unfold retainedSamples. fold (storedSamples liquidityMap l). fold (freshSample now l).
  rewrite filter_app. simpl. now rewrite young_fresh.
Qed.

Lemma retainedSamples_nonempty : retainedSamples now liquidityMap l <> [].
Proof. rewrite retainedSamples_app. now destruct (filter (young now) (storedSamples liquidityMap l)). Qed.

Lemma retainedSamples_young (h : Sample) :
  In h (retainedSamples now liquidityMap l) ->
  (now - s_time h < SPOOF_DETECTION_WINDOW)%Z.
Proof.
  unfold retainedSamples. intros Hin. apply filter_In in Hin.
  destruct Hin as [_ Hy]. unfold young in Hy. now apply Z.ltb_lt.
Qed.

Lemma retainedSamples_newest :
  sampleAt (length (retainedSamples now liquidityMap l) - 1)
           (retainedSamples now liquidityMap l) = (freshSample now l).
Proof.
  rewrite retainedSamples_app. unfold sampleAt.
  rewrite length_app. simpl. rewrite app_nth2 by lia.
  replace (length (filter (young now) (storedSamples liquidityMap l)) + 1 - 1
           - length (filter (young now) (storedSamples liquidityMap l)))%nat with 0%nat by lia.
  reflexivity.
Qed.

Lemma retainedSamples_span :
  (s_time (sampleAt (length (retainedSamples now liquidityMap l) - 1)
                    (retainedSamples now liquidityMap l))
   - s_time (sampleAt 0 (retainedSamples now liquidityMap l))
   < SPOOF_DETECTION_WINDOW)%Z.
Proof.
  rewrite retainedSamples_newest. simpl.
  apply retainedSamples_young. unfold sampleAt. apply nth_In.
  pose proof retainedSamples_nonempty as Hne.
  destruct (retainedSamples now liquidityMap l); [congruence | simpl; lia].
Qed.

Lemma spoofCondition_noSpan :
  spoofCondition avgVol (retainedSamples now liquidityMap l)
  = spoofConditionNoSpan avgVol (retainedSamples now liquidityMap l).
Proof.
  unfold spoofCondition, spoofConditionNoSpan.
  pose proof retainedSamples_span as Hspan. apply Z.ltb_lt in Hspan.
  rewrite Hspan.
  destruct (2 <=? length (retainedSamples now liquidityMap l))%nat;
    [| reflexivity].
  simpl. now destruct (gt _ _), (lt _ _).
Qed.

(** The map after the step: the retained samples are written at the
    price of the level, on top of the in-place [push]. *)
Lemma spoofStep_map (detected : list SpoofAlert) :
  fst (spoofStep now avgVol (liquidityMap, detected) l)
  = JSMap.set (price l) (retainedSamples now liquidityMap l)
      (match JSMap.get (price l) liquidityMap with
       | Some _ => JSMap.set (price l) ((storedSamples liquidityMap l) ++ [(freshSample now l)]) liquidityMap
       | None => liquidityMap
       end).
Proof.
  unfold spoofStep. simpl. fold (storedSamples liquidityMap l). fold (freshSample now l).
  change (filter (young now) ((storedSamples liquidityMap l) ++ [(freshSample now l)]))
    with (retainedSamples now liquidityMap l).
  pose proof retainedSamples_nonempty as Hne.
  destruct (retainedSamples now liquidityMap l) as [| h rest] eqn:E;
    [congruence |].
  simpl. now destruct (spoofCondition avgVol (h :: rest)).
Qed.

Lemma spoofStep_alerts (detected : list SpoofAlert) :
  snd (spoofStep now avgVol (liquidityMap, detected) l)
  = if spoofConditionNoSpan avgVol (retainedSamples now liquidityMap l)
    then detected ++ [spoofAlertFor now l (retainedSamples now liquidityMap l)]
    else detected.
Proof.
  rewrite <- spoofCondition_noSpan.
  unfold spoofStep. simpl. fold (storedSamples liquidityMap l). fold (freshSample now l).
  change (filter (young now) ((storedSamples liquidityMap l) ++ [(freshSample now l)]))
    with (retainedSamples now liquidityMap l).
  pose proof retainedSamples_nonempty as Hne.
  destruct (retainedSamples now liquidityMap l) as [| h rest] eqn:E;
    [congruence |].
  simpl (0 <? length (h :: rest))%nat. cbv iota.
  now destruct (spoofCondition avgVol (h :: rest)).
Qed.

Lemma spoofStep_get (detected : list SpoofAlert) (k : number) :
  JSMap.get k (fst (spoofStep now avgVol (liquidityMap, detected) l))
  = if same_value_zero k (price l)
    then Some (retainedSamples now liquidityMap l)
    else JSMap.get k liquidityMap.
Proof.
  rewrite spoofStep_map, get_set.
  destruct (same_value_zero k (price l)) eqn:Hk; [reflexivity |].
  destruct (JSMap.get (price l) liquidityMap); [| reflexivity].
  now rewrite get_set, Hk.
Qed.

End SpoofStep.

(** C8: in the spoof loop the time-span test never fails.  The samples kept
    for a level are never empty, the newest of them is the one just pushed
    at the current time, and the purge keeps only samples less than 3000 ms
    old, so the span from the oldest to the newest kept sample is below the
    window; the source condition therefore equals the one without the span
    test, and the step pushes an alert exactly when at least two samples are
    kept, their largest volume exceeds 3 times [avgVol] and their smallest
    is below 0.5 times [avgVol]. *)
Theorem spoof_span_guard_is_vacuous (now : Z) (avgVol : number)
    (liquidityMap : JSMap.t (list Sample)) (detected : list SpoofAlert)
    (l : PriceLevel) :
  retainedSamples now liquidityMap l <> []
  /\ s_time (sampleAt (length (retainedSamples now liquidityMap l) - 1)
                      (retainedSamples now liquidityMap l)) = now
  /\ (s_time (sampleAt (length (retainedSamples now liquidityMap l) - 1)
                       (retainedSamples now liquidityMap l))
      - s_time (sampleAt 0 (retainedSamples now liquidityMap l))
      < SPOOF_DETECTION_WINDOW)%Z
  /\ spoofCondition avgVol (retainedSamples now liquidityMap l)
     = spoofConditionNoSpan avgVol (retainedSamples now liquidityMap l)
  /\ snd (spoofStep now avgVol (liquidityMap, detected) l)
     = if spoofConditionNoSpan avgVol (retainedSamples now liquidityMap l)
       then detected ++ [spoofAlertFor now l (retainedSamples now liquidityMap l)]
       else detected.
Proof.
  split; [apply retainedSamples_nonempty |].
  split; [now rewrite retainedSamples_newest |].
  split; [apply retainedSamples_span |].
  split; [apply spoofCondition_noSpan | apply spoofStep_alerts].
Qed.

Lemma spoofStep_fresh (now : Z) (avgVol : number)
    (acc : JSMap.t (list Sample) * list SpoofAlert) (x : PriceLevel) (k : number) :
  freshSamplesAt now (fst acc) k \/ same_value_zero k (price x) = true ->
  freshSamplesAt now (fst (spoofStep now avgVol acc x)) k.
Proof.
  destruct acc as [m d]. unfold freshSamplesAt. simpl fst at 1.
  intros H. rewrite spoofStep_get.
  destruct (same_value_zero k (price x)) eqn:Hk.
  - exists (retainedSamples now m x).
    split; [reflexivity |].
    split; [apply retainedSamples_nonempty | apply retainedSamples_young].
  - destruct H as [H | H]; [exact H | discriminate].
Qed.

Lemma spoofFold_fresh (now : Z) (avgVol : number) (levels : list PriceLevel)
    (k : number) :
  forall acc,
    freshSamplesAt now (fst acc) k
    \/ (exists x, In x levels /\ same_value_zero k (price x) = true) ->
    freshSamplesAt now (fst (fold_left (spoofStep now avgVol) levels acc)) k.
Proof.
  induction levels as [| x levels IH]; intros acc H; simpl.
  - destruct H as [H | (x & [] & _)]. exact H.
  - apply IH.
    destruct H as [H | (x' & [<- | Hin] & Hk)].
    + left. apply spoofStep_fresh. now left.
    + left. apply spoofStep_fresh. now right.
    + right. now exists x'.
Qed.

(** C3 (amended): after an update of the anomaly detector, for every price
    present in the current snapshot (bids and asks) the liquidity history
    holds a non-empty list of samples and every sample in it is younger than
    the 3 s window. *)
Theorem purge_covers_current_prices (now : Z) (ob prev : Snapshot)
    (st : DetectorState) (l : PriceLevel) :
  In l (bids ob ++ asks ob) ->
  freshSamplesAt now (recentLiquidity (detectorUpdate now ob prev st)) (price l).
Proof.
  intros Hin. simpl. unfold spoofPass.
  apply spoofFold_fresh. right. exists l.
  split; [exact Hin | apply same_value_zero_refl].
Qed.

Lemma purge_covers_current_prices_witness :
  In (level 101 1) (bids feedThird ++ asks feedThird)
  /\ freshSamplesAt 6000
       (recentLiquidity (detectorUpdate 6000 feedThird feedSecond afterFeedSecond))
       (price (level 101 1)).
Proof.
  assert (Hin : In (level 101 1) (bids feedThird ++ asks feedThird))
    by (simpl; right; left; reflexivity).
  split; [exact Hin |].
  exact (purge_covers_current_prices 6000 feedThird feedSecond afterFeedSecond
           (level 101 1) Hin).
Defined.

(** C3, counterexample: the level at price 100 is sampled at time 1000 and
    is absent from the book that arrives at time 6000.  After that update
    the liquidity history still holds the sample taken at time 1000, which
    is 5000 ms old: the purge only visits the prices of the current book. *)
Lemma stale_samples_survive_update :
  afterFeedThird = detectorUpdate 6000 feedThird feedSecond afterFeedSecond
  /\ JSMap.get (of_Z 100) (recentLiquidity afterFeedThird)
     = Some [{| s_time := 1000; s_volume := of_Z 1 |}]
  /\ ~ allYoung 6000 (recentLiquidity afterFeedThird).
Proof.
  split; [reflexivity |]. split; [vm_compute; reflexivity |].
  intros Hall.
  assert (Hold : (6000 - 1000 < SPOOF_DETECTION_WINDOW)%Z).
  { apply (Hall (of_Z 100) [{| s_time := 1000; s_volume := of_Z 1 |}]
                {| s_time := 1000; s_volume := of_Z 1 |}).
    - vm_compute. left. reflexivity.
    - left. reflexivity. }
  unfold SPOOF_DETECTION_WINDOW in Hold. lia.
Qed.

Section ChangeMaps.

Variable side : Side.

Lemma markChanges_sided (ty : ChangeType) (threshold : number)
    (other : JSMap.t number) (es : list (number * number)) :
  forall m, sidedChanges side m -> sidedChanges side (fold_left (markChanges ty side threshold other) es m).
Proof.
  induction es as [| e es IH]; intros m Hm; simpl; [exact Hm |].
  apply IH. unfold markChanges.
  destruct (gt (sub (snd e) (getOrZero (fst e) other)) threshold); [| exact Hm].
  destruct Hm as [Hd Hs]. split.
  - now apply distinctKeys_set.
  - now apply values_set.
Qed.

Lemma detectChanges_sided (current previous : list PriceLevel) :
  distinctKeys (fst (detectChanges current previous side))
  /\ Forall (fun c => change_side c = side)
            (JSMap.values (fst (detectChanges current previous side))).
Proof.
  unfold detectChanges. simpl.
  apply markChanges_sided. apply markChanges_sided.
  split; [exact I | constructor].
Qed.

End ChangeMaps.

Lemma mergeChanges_later_wins (bidChanges askChanges : JSMap.t Change)
    (p : number) (flag : Change) :
  distinctKeys askChanges ->
  JSMap.get p askChanges = Some flag ->
  JSMap.get p (mergeChanges bidChanges askChanges) = Some flag.
Proof.
  intros Hd Hget. unfold mergeChanges, JSMap.of_entries, JSMap.entries.
  rewrite fold_left_app. now apply get_putAll_present.
Qed.

Lemma has_size_pos (V : Type) (m : JSMap.t V) (k : number) :
  JSMap.has k m = true -> (0 <? JSMap.size m)%nat = true.
Proof. destruct m; [discriminate | reflexivity]. Qed.

Lemma detectorUpdate_flashing (now : Z) (ob prev : Snapshot) (st : DetectorState) :
  flashingPrices (detectorUpdate now ob prev st)
  = if (0 <? JSMap.size
              (mergeChanges (fst (detectChanges (bids ob) (bids prev) bid))
                            (fst (detectChanges (asks ob) (asks prev) ask))))%nat
    then mergeChanges (fst (detectChanges (bids ob) (bids prev) bid))
                      (fst (detectChanges (asks ob) (asks prev) ask))
    else flashingPrices st.
Proof. reflexivity. Qed.

(** C10: when one price carries a large-order flag in both per-side change
    maps of an update, the merged map, which becomes the set of flashing
    prices, keeps for that price the flag of the ask side; the flag of the
    bid side, with its own type and its [bid] tag, is not in the merged map
    any more. *)
Theorem merged_changes_keep_ask_flag (now : Z) (ob prev : Snapshot)
    (st : DetectorState) (p : number) :
  JSMap.has p (fst (detectChanges (bids ob) (bids prev) bid)) = true ->
  JSMap.has p (fst (detectChanges (asks ob) (asks prev) ask)) = true ->
  exists bidFlag askFlag,
    JSMap.get p (fst (detectChanges (bids ob) (bids prev) bid)) = Some bidFlag
    /\ change_side bidFlag = bid
    /\ JSMap.get p (fst (detectChanges (asks ob) (asks prev) ask)) = Some askFlag
    /\ change_side askFlag = ask
    /\ JSMap.get p (mergeChanges (fst (detectChanges (bids ob) (bids prev) bid))
                                 (fst (detectChanges (asks ob) (asks prev) ask)))
       = Some askFlag
    /\ JSMap.get p (flashingPrices (detectorUpdate now ob prev st)) = Some askFlag.
Proof.
  unfold JSMap.has. intros Hb Ha.
  destruct (JSMap.get p (fst (detectChanges (bids ob) (bids prev) bid)))
    as [bidFlag |] eqn:Hgb; [| discriminate].
  destruct (JSMap.get p (fst (detectChanges (asks ob) (asks prev) ask)))
    as [askFlag |] eqn:Hga; [| discriminate].
  destruct (detectChanges_sided bid (bids ob) (bids prev)) as [_ Hsb].
  destruct (detectChanges_sided ask (asks ob) (asks prev)) as [Hda Hsa].
  assert (Hm : JSMap.get p
                 (mergeChanges (fst (detectChanges (bids ob) (bids prev) bid))
                               (fst (detectChanges (asks ob) (asks prev) ask)))
               = Some askFlag)
    by (apply mergeChanges_later_wins; assumption).
  rewrite Forall_forall in Hsb, Hsa.
  apply get_In in Hgb, Hga.
  exists bidFlag, askFlag.
  split; [reflexivity |].
  split; [now apply Hsb |].
  split; [reflexivity |].
  split; [now apply Hsa |].
  split; [exact Hm |].
  rewrite detectorUpdate_flashing.
  assert (Hsize : (0 <? JSMap.size
                     (mergeChanges (fst (detectChanges (bids ob) (bids prev) bid))
                                   (fst (detectChanges (asks ob) (asks prev) ask))))%nat
                  = true).
  { apply has_size_pos with (k := p). unfold JSMap.has. now rewrite Hm. }
  rewrite Hsize. exact Hm.
Qed.

Lemma merged_changes_keep_ask_flag_witness :
  JSMap.has (of_Z 100)
    (fst (detectChanges (bids touchingAfter) (bids touchingBefore) bid)) = true
  /\ JSMap.has (of_Z 100)
       (fst (detectChanges (asks touchingAfter) (asks touchingBefore) ask)) = true
  /\ exists bidFlag askFlag,
       JSMap.get (of_Z 100)
         (fst (detectChanges (bids touchingAfter) (bids touchingBefore) bid))
       = Some bidFlag
       /\ change_side bidFlag = bid
       /\ JSMap.get (of_Z 100)
            (flashingPrices
               (detectorUpdate 0 touchingAfter touchingBefore initialDetectorState))
          = Some askFlag
       /\ change_side askFlag = ask.
Proof.
  assert (Hb : JSMap.has (of_Z 100)
                 (fst (detectChanges (bids touchingAfter) (bids touchingBefore) bid))
               = true) by (vm_compute; reflexivity).
  assert (Ha : JSMap.has (of_Z 100)
                 (fst (detectChanges (asks touchingAfter) (asks touchingBefore) ask))
               = true) by (vm_compute; reflexivity).
  split; [exact Hb |]. split; [exact Ha |].
  destruct (merged_changes_keep_ask_flag 0 touchingAfter touchingBefore
              initialDetectorState (of_Z 100) Hb Ha)
    as (bidFlag & askFlag & Hgb & Hsb & _ & Hsa & _ & Hflash).
  exists bidFlag, askFlag. auto.
Defined.

(* ===================================================================== *)
(** * Properties of the tick aggregator *)
(* ===================================================================== *)

Lemma cumulate_volumes (ladder : list AggregatedLevel) :
  forall cum, map agg_volume (cumulate cum ladder) = map agg_volume ladder.
Proof.
  induction ladder as [| lv rest IH]; intros cum; simpl; [reflexivity |].
  now rewrite IH.
Qed.

Lemma cumulate_first (ladder : list AggregatedLevel) (cum : number) :
  option_map total (hd_error (cumulate cum ladder))
  = option_map (fun lv => add cum (agg_volume lv)) (hd_error ladder).
Proof. now destruct ladder. Qed.

Lemma cumulate_last (ladder : list AggregatedLevel) :
  forall cum,
    ladder <> [] ->
    option_map total (hd_error (rev (cumulate cum ladder)))
    = Some (fold_left add (map agg_volume ladder) cum).
Proof.
  induction ladder as [| lv rest IH]; intros cum Hne; [congruence |].
  destruct rest as [| lv' rest'] eqn:Erest; [reflexivity |].
  rewrite <- Erest in *.
  assert (Hrest : rest <> []) by (rewrite Erest; discriminate).
  specialize (IH (add cum (agg_volume lv)) Hrest).
  cbn [cumulate rev map fold_left].
  destruct (rev (cumulate (add cum (agg_volume lv)) rest)) as [| r rs];
    [discriminate | exact IH].
Qed.

Lemma cumulate_nth (ladder : list AggregatedLevel) :
  forall cum k x,
    nth_error (cumulate cum ladder) k = Some x ->
    total x = fold_left add (map agg_volume (firstn (S k) ladder)) cum.
Proof.
  induction ladder as [| lv rest IH]; intros cum k x Hk.
  - now destruct k.
  - destruct k as [| k]; simpl in Hk.
    + injection Hk as <-. reflexivity.
    + apply IH in Hk. exact Hk.
Qed.

(** Entry [k] of a filled ladder carries the sum of the volumes of the
    entries [0 .. k] of that ladder. *)
Lemma cumulate_nth_sum (ladder : list AggregatedLevel) (k : nat) (x : AggregatedLevel) :
  nth_error (cumulate zero ladder) k = Some x ->
  total x = sum (map agg_volume (firstn (S k) (cumulate zero ladder))).
Proof.
  intros Hk. rewrite (cumulate_nth ladder zero k Hk).
  unfold sum. now rewrite <- !firstn_map, cumulate_volumes.
Qed.

Lemma cumulate_last_is_sum (ladder : list AggregatedLevel) :
  option_map total (hd_error (rev (cumulate zero ladder)))
  = match cumulate zero ladder with
    | [] => None
    | filled => Some (sum (map agg_volume filled))
    end.
Proof.
  destruct ladder as [| lv rest] eqn:El; [reflexivity |].
  rewrite <- El.
  assert (Hne : ladder <> []) by (rewrite El; discriminate).
  rewrite (cumulate_last zero Hne), <- (cumulate_volumes ladder zero).
  rewrite El. reflexivity.
Qed.

(** C1: the bid ladder is reversed before the totals are filled in.  For
    every snapshot, the ask entry at distance [k] from the best ask carries
    the sum of the volumes of the ask entries from the best ask up to it,
    while the bid entry at distance [k] from the best bid carries the sum of
    the volumes of the bid entries from the farthest one up to it; so the
    best ask carries its own volume and the best bid the sum of the whole
    bid ladder.  At a book of two bids (100 with volume 1, 99 with volume 2)
    and two asks (101 with volume 1, 102 with volume 2) the ask totals are 1
    and 3 from the best ask outward, but the best bid carries 3 rather than
    its own volume 1 and the totals fall from 3 to 2 walking away from the
    best bid. *)
Theorem bid_cumulative_grows_toward_best :
  (forall (ob : Snapshot) (depthRangePercent tickSize : number) (depth : Z) (k : nat)
          (x : AggregatedLevel),
      (nth_error
         (asksFromBest (formatOrderbookData (Some ob) depthRangePercent tickSize depth))
         k = Some x ->
       total x
       = sum (map agg_volume
                (firstn (S k)
                   (asksFromBest
                      (formatOrderbookData (Some ob) depthRangePercent tickSize depth)))))
      /\ (nth_error
            (bidsFromBest (formatOrderbookData (Some ob) depthRangePercent tickSize depth))
            k = Some x ->
          total x
          = sum (map agg_volume
                   (rev (skipn k
                      (bidsFromBest
                         (formatOrderbookData (Some ob) depthRangePercent tickSize depth)))))))
  /\ (forall (ob : Snapshot) (depthRangePercent tickSize : number) (depth : Z),
      option_map total
        (bestBidEntry (formatOrderbookData (Some ob) depthRangePercent tickSize depth))
      = match fmt_bids (formatOrderbookData (Some ob) depthRangePercent tickSize depth) with
        | [] => None
        | ladder => Some (sum (map agg_volume ladder))
        end
      /\ option_map total
           (bestAskEntry (formatOrderbookData (Some ob) depthRangePercent tickSize depth))
         = option_map (fun lv => add zero (agg_volume lv))
             (bestAskEntry (formatOrderbookData (Some ob) depthRangePercent tickSize depth)))
  /\ map agg_price (bidsFromBest smallLadders) = [of_Z 100; of_Z 99]
  /\ map total (bidsFromBest smallLadders) = [of_Z 3; of_Z 2]
  /\ nondecreasing (map total (bidsFromBest smallLadders)) = false
  /\ option_map agg_volume (bestBidEntry smallLadders) = Some (of_Z 1)
  /\ option_map total (bestBidEntry smallLadders) = Some (of_Z 3)
  /\ map agg_price (asksFromBest smallLadders) = [of_Z 101; of_Z 102]
  /\ map total (asksFromBest smallLadders) = [of_Z 1; of_Z 3]
  /\ nondecreasing (map total (asksFromBest smallLadders)) = true.
Proof.
  split; [| split].
  - intros ob drp tick depth k x.
    unfold asksFromBest, bidsFromBest, formatOrderbookData.
    cbv zeta. cbn [fmt_bids fmt_asks].
    set (ladder := rev (slice_to depth
                          (aggregateByTickSize
                             (filterByRange drp _ (bids ob)) tick true))).
    set (askLadder := slice_to depth
                        (aggregateByTickSize
                           (filterByRange drp _ (asks ob)) tick false)).
    split.
    + apply cumulate_nth_sum.
    + intros Hk. rewrite nth_error_rev in Hk.
      destruct (Nat.ltb_spec k (length (cumulate zero ladder))) as [Hlt | Hge];
        [| discriminate].
      apply cumulate_nth_sum in Hk.
      rewrite skipn_rev, rev_involutive.
      replace (S (length (cumulate zero ladder) - S k))
        with (length (cumulate zero ladder) - k)%nat in Hk by lia.
      exact Hk.
  - intros ob drp tick depth.
    unfold bestBidEntry, bestAskEntry, formatOrderbookData.
    cbv zeta. cbn [fmt_bids fmt_asks].
    set (ladder := rev (slice_to depth
                          (aggregateByTickSize
                             (filterByRange drp _ (bids ob)) tick true))).
    set (askLadder := slice_to depth
                        (aggregateByTickSize
                           (filterByRange drp _ (asks ob)) tick false)).
    split.
    + apply cumulate_last_is_sum.
    + destruct askLadder as [| lv rest]; reflexivity.
  - vm_compute. repeat split; reflexivity.
Qed.

Section Sorting.

Variable A : Type.
Variable cmp : A -> A -> number.

Lemma sort_insert_perm (x : A) (l : list A) :
  Permutation (sort_insert cmp x l) (x :: l).
Proof.
  induction l as [| y l IH]; simpl; [apply Permutation_refl |].
  destruct (gt (cmp x y) zero); [| apply Permutation_refl].
  apply perm_trans with (y :: x :: l); [now apply perm_skip | apply perm_swap].
Qed.

Lemma js_sort_perm (l : list A) : Permutation (js_sort cmp l) l.
Proof.
  induction l as [| x l IH]; simpl; [apply perm_nil |].
  apply perm_trans with (x :: js_sort cmp l);
    [apply sort_insert_perm | now apply perm_skip].
Qed.

(** The comparator never wants each of two entries after the other. *)
Hypothesis cmp_antisym :
  forall x y, gt (cmp x y) zero = true -> gt (cmp y x) zero = false.

Lemma sort_insert_sorted (x : A) (l : list A) :
  inSortOrder cmp l -> inSortOrder cmp (sort_insert cmp x l).
Proof.
  induction l as [| y l IH]; simpl; [auto |].
  intros [Hhead Hrest].
  destruct (gt (cmp x y) zero) eqn:Hxy.
  - specialize (IH Hrest). split; [| exact IH].
    destruct l as [| z l]; simpl.
    + now apply cmp_antisym.
    + destruct (gt (cmp x z) zero); [exact Hhead | now apply cmp_antisym].
  - simpl. auto.
Qed.

Lemma js_sort_sorted (l : list A) : inSortOrder cmp (js_sort cmp l).
Proof.
  induction l as [| x l IH]; simpl; [exact I | now apply sort_insert_sorted].
Qed.

Lemma js_sort_fixed (l : list A) : inSortOrder cmp l -> js_sort cmp l = l.
Proof.
  induction l as [| x l IH]; [reflexivity |].
  intros [Hhead Hrest]. simpl. rewrite (IH Hrest).
  destruct l as [| y l]; [reflexivity |].
  simpl. now rewrite Hhead.
Qed.

End Sorting.

(** The result of a rounding carries the sign it was given, or is NaN. *)
Lemma binary_round_aux_sign (s : bool) (m e : Z) (loc : location) :
  match binary_round_aux prec emax s m e loc with
  | S754_zero s' | S754_infinity s' | S754_finite s' _ _ => s' = s
  | S754_nan => True
  end.
Proof.
  unfold binary_round_aux.
  destruct (shr_fexp prec emax m e loc) as [mrs e'].
  destruct (shr_fexp prec emax _ e' loc_Exact) as [mrs' e''].
  destruct (shr_m mrs'); [reflexivity | | exact I].
  now destruct (Z.leb e'' (emax - prec)).
Qed.

Lemma binary_round_negative (m : positive) (e : Z) :
  gt (binary_round prec emax true m e) zero = false.
Proof.
  unfold binary_round.
  destruct (shl_align m e _) as [mz ez].
  pose proof (binary_round_aux_sign true (Z.pos mz) ez loc_Exact) as Hs.
  destruct (binary_round_aux prec emax true (Z.pos mz) ez loc_Exact)
    as [s' | s' | | s' m' e']; try subst s'; reflexivity.
Qed.

(** A difference and the opposite difference are not both positive. *)
Lemma sub_antisym (a b : number) :
  gt (sub a b) zero = true -> gt (sub b a) zero = false.
Proof.
  destruct a as [sa | sa | | sa ma ea], b as [sb | sb | | sb mb eb];
    try (destruct sa; destruct sb; simpl; intros H; (discriminate || reflexivity));
    try (destruct sa; simpl; intros H; (discriminate || reflexivity));
    try (destruct sb; simpl; intros H; (discriminate || reflexivity));
    try (simpl; intros H; (discriminate || reflexivity)).
  unfold sub, SFsub. rewrite (Z.min_comm eb ea).
  set (ez := Z.min ea eb).
  set (xa := cond_Zopp sa (Z.pos (fst (shl_align ma ea ez)))).
  set (xb := cond_Zopp sb (Z.pos (fst (shl_align mb eb ez)))).
  replace (xb - xa)%Z with (- (xa - xb))%Z by lia.
  destruct (xa - xb)%Z as [| d | d]; simpl.
  - intros H. discriminate.
  - intros _. apply binary_round_negative.
  - intros H. now rewrite binary_round_negative in H.
Qed.

Lemma ladderCompare_antisym (isBid : bool) (x y : AggregatedLevel) :
  gt (ladderCompare isBid x y) zero = true ->
  gt (ladderCompare isBid y x) zero = false.
Proof. unfold ladderCompare. destruct isBid; apply sub_antisym. Qed.

Section StoredKeys.

Variable V : Type.
Implicit Types (m : JSMap.t V) (k : number) (v : V).

Lemma set_absent m k v :
  JSMap.get k m = None -> JSMap.set k v m = m ++ [(key_of k, v)].
Proof.
  induction m as [| [k0 v0] m IH]; simpl; [reflexivity |].
  destruct (same_value_zero k k0); [discriminate |].
  intros H. now rewrite (IH H).
Qed.

Lemma storedKeys_set m k v : storedKeys m -> storedKeys (JSMap.set k v m).
Proof.
  unfold storedKeys.
  induction m as [| [k0 v0] m IH]; simpl; intros Hm.
  - constructor; [apply key_of_idem | constructor].
  - inversion Hm as [| ? ? H0 Hm']; subst.
    destruct (same_value_zero k k0); constructor; auto.
Qed.

Lemma get_absent_keys m k :
  storedKeys m -> ~ In (key_of k) (map fst m) -> JSMap.get k m = None.
Proof.
  unfold storedKeys.
  induction m as [| [k0 v0] m IH]; simpl; intros Hm Hnotin; [reflexivity |].
  inversion Hm as [| ? ? H0 Hm']; subst. simpl in H0.
  destruct (same_value_zero k k0) eqn:Hk.
  - apply same_value_zero_key in Hk. exfalso. apply Hnotin. left. congruence.
  - apply IH; [exact Hm' | tauto].
Qed.

Lemma distinctKeys_NoDup m : distinctKeys m -> NoDup (map fst m).
Proof.
  induction m as [| [k0 v0] m IH]; simpl; [constructor |].
  intros [Hfresh Hm]. constructor; [| now apply IH].
  intros Hin. apply in_map_iff in Hin. destruct Hin as ([k1 v1] & Hk & Hin).
  simpl in Hk. subst k1.
  clear IH Hm. induction m as [| [k2 v2] m IH]; [contradiction |].
  simpl in Hfresh. destruct (same_value_zero k0 k2) eqn:Hk; [discriminate |].
  destruct Hin as [Heq | Hin]; [| now apply IH].
  injection Heq as -> _. now rewrite same_value_zero_refl in Hk.
Qed.

End StoredKeys.

Lemma aggregated_keys (tickSize : number) (isBid : bool) (orders : list PriceLevel) :
  forall m,
    storedKeys m /\ distinctKeys m ->
    storedKeys (fold_left (aggregateStep tickSize isBid) orders m)
    /\ distinctKeys (fold_left (aggregateStep tickSize isBid) orders m).
Proof.
  induction orders as [| l orders IH]; intros m Hm; simpl; [exact Hm |].
  apply IH. destruct Hm as [Hs Hd]. unfold aggregateStep.
  destruct (JSMap.get _ m); split;
    (now apply storedKeys_set) || (now apply distinctKeys_set).
Qed.

(** Feeding a ladder of stable buckets with distinct prices back into the
    aggregation loop rebuilds the entries of the ladder, in order. *)
Lemma aggregate_stable_ladder (tickSize : number) (isBid : bool)
    (rest : list AggregatedLevel) :
  forall prefix,
    NoDup (map agg_price (prefix ++ rest)) ->
    Forall (stableBucket tickSize isBid) (prefix ++ rest) ->
    fold_left (aggregateStep tickSize isBid) (asOrders rest) (map bucketEntry prefix)
    = map bucketEntry (prefix ++ rest).
Proof.
  induction rest as [| a rest IH]; intros prefix Hnd Hst.
  - now rewrite app_nil_r.
  - assert (Ha : stableBucket tickSize isBid a).
    { rewrite Forall_forall in Hst. apply Hst, in_or_app. right. now left. }
    destruct Ha as [Hprice Hvol].
    assert (Hstored : storedKeys (map bucketEntry prefix)).
    { unfold storedKeys. rewrite Forall_map.
      apply Forall_app in Hst. destruct Hst as [Hst _].
      eapply Forall_impl; [| exact Hst].
      intros b [Hb _]. simpl. rewrite <- Hb. apply key_of_idem. }
    assert (Hfresh : JSMap.get
                       (roundedPrice (parseFloat_of_number (agg_price a)) tickSize isBid)
                       (map bucketEntry prefix) = None).
    { apply get_absent_keys; [exact Hstored |].
      rewrite Hprice, map_map. simpl.
      rewrite map_app in Hnd. simpl in Hnd.
      apply NoDup_remove_2 in Hnd.
      intros Hin. apply Hnd, in_or_app. now left. }
    simpl asOrders. simpl fold_left.
    unfold aggregateStep at 2. simpl price. simpl volume.
    rewrite Hfresh. rewrite set_absent by exact Hfresh. rewrite Hprice, Hvol.
    change [(agg_price a, agg_volume a)] with (map bucketEntry [a]).
    rewrite <- map_app.
    rewrite (IH (prefix ++ [a])); rewrite <- app_assoc; auto.
Qed.

Lemma entryBucket_bucketEntry (ladder : list AggregatedLevel) :
  Forall (fun a => total a = zero) ladder ->
  map entryBucket (map bucketEntry ladder) = ladder.
Proof.
  induction ladder as [| a ladder IH]; intros Hz; [reflexivity |].
  inversion Hz as [| ? ? Ha Hz']; subst. simpl.
  rewrite (IH Hz'). destruct a as [p v t]. simpl in Ha. now subst t.
Qed.

(** C7 (amended): aggregation is idempotent as far as the tick rounding is.
    For every tick size and every side, when the tick rounding maps the
    price of every bucket of the aggregated ladder to itself (and every
    bucket volume reads back unchanged through [parseFloat], that is, is
    not [-0]), aggregating the ladder again at the same tick size returns
    the same ladder: same prices and same volumes in the same order, hence
    the same cumulative totals. *)
Theorem reaggregation_of_stable_buckets (orders : list PriceLevel)
    (tickSize : number) (isBid : bool) :
  Forall (stableBucket tickSize isBid) (aggregateByTickSize orders tickSize isBid) ->
  reaggregate orders tickSize isBid = aggregateByTickSize orders tickSize isBid.
Proof.
  intros Hst. unfold reaggregate.
  set (once := aggregateByTickSize orders tickSize isBid) in *.
  assert (Hperm : Permutation once
            (map entryBucket
               (fold_left (aggregateStep tickSize isBid) orders JSMap.empty)))
    by apply js_sort_perm.
  destruct (aggregated_keys tickSize isBid orders (m := JSMap.empty))
    as [_ Hd]; [split; [constructor | exact I] |].
  assert (Hnd : NoDup (map agg_price once)).
  { eapply Permutation_NoDup.
    - apply Permutation_map. apply Permutation_sym. exact Hperm.
    - rewrite map_map. simpl. now apply distinctKeys_NoDup. }
  assert (Hzero : Forall (fun a => total a = zero) once).
  { eapply Permutation_Forall.
    - apply Permutation_sym. exact Hperm.
    - rewrite Forall_map. apply Forall_forall. reflexivity. }
  unfold aggregateByTickSize at 1. cbv zeta. unfold JSMap.entries.
  change (@JSMap.empty number) with (map bucketEntry []).
  rewrite (aggregate_stable_ladder once []); simpl app; auto.
  rewrite (entryBucket_bucketEntry Hzero).
  apply js_sort_fixed. apply js_sort_sorted. apply ladderCompare_antisym.
Qed.

Lemma unitBids_stable :
  Forall (stableBucket (of_Z 1) true) (aggregateByTickSize unitBids (of_Z 1) true).
Proof.
  apply Forall_forall. intros a Ha. vm_compute in Ha.
  destruct Ha as [<- | [<- | []]]; split; vm_compute; reflexivity.
Qed.

Lemma reaggregation_of_stable_buckets_witness :
  Forall (stableBucket (of_Z 1) true) (aggregateByTickSize unitBids (of_Z 1) true)
  /\ reaggregate unitBids (of_Z 1) true = aggregateByTickSize unitBids (of_Z 1) true.
Proof.
  split; [exact unitBids_stable |].
  exact (reaggregation_of_stable_buckets unitBids unitBids_stable).
Defined.

(** C7, counterexample: at tick size 0.1 an ask at 97234.11 is put in the
    bucket 97234.20000000001, the binary64 product of 972342 and 0.1, and
    aggregating that ladder again moves it to the bucket 97234.3.  At tick
    size 0.01 a bid at 0.59 is put in the bucket 0.58 and a second
    aggregation moves it to 0.5700000000000001.  The volumes are kept. *)
Lemma reaggregation_moves_buckets :
  (map agg_price (aggregateByTickSize askQuote (dec 1 1) false)
     = [S754_finite false 6681883344843572 (-36)]
   /\ map agg_price (reaggregate askQuote (dec 1 1) false) = [dec 972343 1]
   /\ map agg_volume (reaggregate askQuote (dec 1 1) false)
      = map agg_volume (aggregateByTickSize askQuote (dec 1 1) false)
   /\ reaggregate askQuote (dec 1 1) false
      <> aggregateByTickSize askQuote (dec 1 1) false)
  /\ (map agg_price (aggregateByTickSize bidQuote (dec 1 2) true) = [dec 58 2]
      /\ map agg_price (reaggregate bidQuote (dec 1 2) true)
         = [S754_finite false 5134103575202366 (-53)]
      /\ map agg_volume (reaggregate bidQuote (dec 1 2) true)
         = map agg_volume (aggregateByTickSize bidQuote (dec 1 2) true)
      /\ reaggregate bidQuote (dec 1 2) true
         <> aggregateByTickSize bidQuote (dec 1 2) true).
Proof.
  split.
  - split; [vm_compute; reflexivity |].
    split; [vm_compute; reflexivity |].
    split; [vm_compute; reflexivity |].
    vm_compute. discriminate.
  - split; [vm_compute; reflexivity |].
    split; [vm_compute; reflexivity |].
    split; [vm_compute; reflexivity |].
    vm_compute. discriminate.
Qed.

(* ===================================================================== *)
(** * Further properties of the replay controller *)
(* ===================================================================== *)

Lemma atIndex_in_range (A : Type) (l : list A) (i : Z) :
  (0 <= i < Z.of_nat (length l))%Z -> exists x, atIndex l i = Some x.
Proof.
  intros Hi. unfold atIndex.
  destruct (Z.ltb_spec i 0); [lia |].
  destruct (nth_error l (Z.to_nat i)) as [x |] eqn:Hx; [now exists x |].
  apply nth_error_None in Hx. lia.
Qed.

Lemma replayInvariant_view (st : ReplayState) :
  replayInvariant st ->
  exists snap,
    atIndex (history st) (historyIndex st) = Some snap
    /\ orderbook st = Some snap
    /\ currentTime st = Some (timestamp snap).
Proof.
  intros [Hrange [Hob Hct]].
  destruct (atIndex_in_range (history st) Hrange) as [snap Hsnap].
  exists snap. unfold timeAt in Hct. rewrite Hsnap in Hob, Hct. auto.
Qed.

Lemma showIndex_invariant (st : ReplayState) (j : Z) :
  (0 <= j < Z.of_nat (length (history st)))%Z ->
  exists st',
    showIndex st j = Some st'
    /\ replayInvariant st'
    /\ history st' = history st
    /\ historyIndex st' = j
    /\ isPlaying st' = isPlaying st.
Proof.
  intros Hj.
  destruct (showIndex_in_range st Hj) as (st' & Hshow & Hh & Hp & Hi & Hv).
  exists st'. split; [exact Hshow |].
  split; [| auto].
  split; [| exact Hv].
  unfold indexInRange. rewrite Hh, Hi. exact Hj.
Qed.

(** X1: a jump from a consistent replay view gives a consistent replay view
    of the same history: jump-back never throws, never raises the index and
    keeps it at or above 0; jump-forward never throws, never lowers the
    index and keeps it below the length of the history. *)
Theorem jumps_keep_replay_view (st : ReplayState) :
  replayInvariant st ->
  (exists st',
      handleJumpBack st = Some st'
      /\ replayInvariant st'
      /\ history st' = history st
      /\ (0 <= historyIndex st' <= historyIndex st)%Z)
  /\ (exists st',
      handleJumpForward st = Some st'
      /\ replayInvariant st'
      /\ history st' = history st
      /\ (historyIndex st <= historyIndex st'
          < Z.of_nat (length (history st)))%Z).
Proof.
  intros Hinv.
  destruct (replayInvariant_view Hinv) as (snap & _ & _ & Hct).
  destruct Hinv as [Hrange Hview]. pose proof Hrange as Hr. unfold indexInRange in Hr.
  split.
  - destruct (jumpBack_result Hrange Hct)
      as (st' & Hjump & (Hh & Hp & Hmoved & Hsame) & Hwhere).
    exists st'. split; [exact Hjump |].
    assert (Hidx : (0 <= historyIndex st' <= historyIndex st)%Z).
    { destruct Hwhere as [[Hj _] | [_ Hz]]; lia. }
    split; [| split; [exact Hh | exact Hidx]].
    destruct (Z.eq_dec (historyIndex st') (historyIndex st)) as [E | E].
    + rewrite (Hsame E). now split.
    + split; [unfold indexInRange; rewrite Hh; lia | now apply Hmoved].
  - destruct (jumpForward_result Hrange Hct)
      as (st' & Hjump & (Hh & Hp & Hmoved & Hsame) & Hwhere).
    exists st'. split; [exact Hjump |].
    assert (Hidx : (historyIndex st <= historyIndex st'
                    < Z.of_nat (length (history st)))%Z).
    { destruct Hwhere as [[Hj _] | [_ Hz]]; lia. }
    split; [| split; [exact Hh | exact Hidx]].
    destruct (Z.eq_dec (historyIndex st') (historyIndex st)) as [E | E].
    + rewrite (Hsame E). now split.
    + split; [unfold indexInRange; rewrite Hh; lia | now apply Hmoved].
Qed.

Lemma replayMidway_invariant : replayInvariant replayMidway.
Proof.
  split; [unfold indexInRange; simpl; lia |].
  split; reflexivity.
Qed.

Lemma jumps_keep_replay_view_witness :
  replayInvariant replayMidway
  /\ option_map historyIndex (handleJumpBack replayMidway) = Some 1%Z
  /\ exists st', handleJumpForward replayMidway = Some st' /\ replayInvariant st'.
Proof.
  split; [exact replayMidway_invariant |].
  split; [reflexivity |].
  destruct (jumps_keep_replay_view replayMidway_invariant)
    as [_ (st' & Hjump & Hinv & _)].
  exists st'. split; [exact Hjump | exact Hinv].
Defined.

Lemma jumpBackLoop_beyond (hist : list Snapshot) (targetTime : Z) (n : nat)
    (newIndex : Z) :
  (length hist < n)%nat -> jumpBackLoop hist targetTime n newIndex = None.
Proof.
  intros Hn. destruct n as [| i]; [lia |]. simpl.
  destruct (nth_error hist i) eqn:Hi; [| reflexivity].
  assert (nth_error hist i = None) by (apply nth_error_None; lia). congruence.
Qed.

(** X2: the error and edge behaviour of the jumps, for any index the
    replay state can hold (also one outside the history).  With a history
    and a current time, jump-back throws exactly when the index is beyond
    the length of the history, and jump-forward throws exactly when the
    index is below -1; jump-back at index 0 or below and jump-forward at the
    last index or beyond leave the state as it is. *)
Theorem jump_errors_and_edges (st : ReplayState) (ct : Z) :
  history st <> [] -> currentTime st = Some ct ->
  (handleJumpBack st = None
   <-> (Z.of_nat (length (history st)) < historyIndex st)%Z)
  /\ (handleJumpForward st = None <-> (historyIndex st < -1)%Z)
  /\ ((historyIndex st <= 0)%Z -> handleJumpBack st = Some st)
  /\ ((Z.of_nat (length (history st)) - 1 <= historyIndex st)%Z ->
      handleJumpForward st = Some st).
Proof.
  intros Hne Hct.
  assert (Hback : (historyIndex st <= 0)%Z -> handleJumpBack st = Some st).
  { intros Hle. rewrite (handleJumpBack_unfold st Hne Hct).
    replace (Z.to_nat (historyIndex st)) with 0%nat by lia. simpl.
    now rewrite Z.eqb_refl. }
  assert (Hfwd : (Z.of_nat (length (history st)) - 1 <= historyIndex st)%Z ->
                 handleJumpForward st = Some st).
  { intros Hge. unfold handleJumpForward. rewrite Hct.
    destruct (history st) as [| s0 rest] eqn:Eh; [congruence |].
    rewrite <- Eh in *.
    destruct (Z.ltb_spec (historyIndex st + 1) 0).
    { rewrite Eh in Hge. simpl length in Hge. lia. }
    rewrite skipn_all2 by lia. simpl. now rewrite Z.eqb_refl. }
  split; [| split; [| split; [exact Hback | exact Hfwd]]].
  - split.
    + intros Hnone.
      destruct (Z.le_gt_cases (historyIndex st) (Z.of_nat (length (history st))))
        as [Hle | Hgt]; [exfalso | exact Hgt].
      destruct (Z.le_gt_cases (historyIndex st) 0) as [H0 | Hpos].
      * rewrite (Hback H0) in Hnone. discriminate.
      * rewrite (handleJumpBack_unfold st Hne Hct) in Hnone.
        destruct (jumpBackLoop_spec (history st) (ct - 10000)
                    (n := Z.to_nat (historyIndex st)) (historyIndex st) ltac:(lia))
          as (j & Hloop & Hlt & _).
        rewrite Hloop in Hnone.
        destruct (Z.of_nat j =? historyIndex st)%Z; [discriminate |].
        destruct (showIndex_in_range st (j := Z.of_nat j) ltac:(lia))
          as (st' & Hshow & _).
        congruence.
    + intros Hgt. rewrite (handleJumpBack_unfold st Hne Hct).
      rewrite jumpBackLoop_beyond by lia. reflexivity.
  - split.
    + intros Hnone.
      destruct (Z.lt_ge_cases (historyIndex st) (-1)) as [Hlt | Hge];
        [exact Hlt | exfalso].
      destruct (Z.le_gt_cases (Z.of_nat (length (history st)) - 1) (historyIndex st))
        as [Hend | Hin].
      * rewrite (Hfwd Hend) in Hnone. discriminate.
      * unfold handleJumpForward in Hnone. rewrite Hct in Hnone.
        destruct (history st) as [| s0 rest] eqn:Eh; [congruence |].
        rewrite <- Eh in *.
        destruct (Z.ltb_spec (historyIndex st + 1) 0); [lia |].
        assert (Hrest : skipn (Z.to_nat (historyIndex st + 1)) (history st) <> []).
        { intros E. apply skipn_all_iff in E. lia. }
        destruct (jumpForwardLoop_spec (ct + 10000) Hrest
                    (historyIndex st + 1) (historyIndex st))
          as (q & Hloop & Hlt & _).
        rewrite length_skipn in Hlt. rewrite Hloop in Hnone.
        destruct (historyIndex st + 1 + Z.of_nat q =? historyIndex st)%Z;
          [discriminate |].
        destruct (showIndex_in_range st
                    (j := (historyIndex st + 1 + Z.of_nat q)%Z) ltac:(lia))
          as (st' & Hshow & _).
        congruence.
    + intros Hlt. unfold handleJumpForward. rewrite Hct.
      destruct (history st); [congruence |].
      destruct (Z.ltb_spec (historyIndex st + 1) 0); [reflexivity | lia].
Qed.

Lemma jump_errors_and_edges_witness :
  history seekBeyondEnd <> []
  /\ currentTime seekBeyondEnd = Some 0%Z
  /\ handleJumpBack seekBeyondEnd = None
  /\ handleJumpForward seekBeyondEnd = Some seekBeyondEnd.
Proof.
  assert (Hne : history seekBeyondEnd <> []) by discriminate.
  assert (Hct : currentTime seekBeyondEnd = Some 0%Z) by reflexivity.
  destruct (jump_errors_and_edges seekBeyondEnd Hne Hct) as (Hback & _ & _ & Hfwd).
  split; [exact Hne |]. split; [exact Hct |].
  split.
  - apply Hback. simpl. lia.
  - apply Hfwd. simpl. lia.
Defined.

Lemma playbackTick_stops (st : ReplayState) :
  historyIndex st = (Z.of_nat (length (history st)) - 1)%Z ->
  playbackTick st
  = Some {| history := history st; historyIndex := historyIndex st;
            orderbook := orderbook st; currentTime := currentTime st;
            isPlaying := false |}.
Proof.
  intros Hlast. unfold playbackTick. cbv zeta.
  destruct (Z.leb_spec (Z.of_nat (length (history st))) (historyIndex st + 1));
    [reflexivity | lia].
Qed.

Lemma playbackTick_advances (st : ReplayState) :
  replayInvariant st ->
  (historyIndex st < Z.of_nat (length (history st)) - 1)%Z ->
  exists st',
    playbackTick st = Some st'
    /\ replayInvariant st'
    /\ history st' = history st
    /\ historyIndex st' = (historyIndex st + 1)%Z
    /\ isPlaying st' = isPlaying st.
Proof.
  intros [Hrange _] Hmore. unfold indexInRange in Hrange.
  unfold playbackTick. cbv zeta.
  destruct (Z.leb_spec (Z.of_nat (length (history st))) (historyIndex st + 1));
    [lia |].
  apply showIndex_invariant. lia.
Qed.

(** X3: one period of the playback timer on a consistent replay view.
    Before the last snapshot it moves the index up by one, shows that
    snapshot and keeps playing; on the last snapshot it stops the playback
    and leaves index and view alone.  Either way it does not throw and the
    view stays consistent. *)
Theorem playback_tick_advances_or_stops (st : ReplayState) :
  replayInvariant st ->
  exists st',
    playbackTick st = Some st'
    /\ replayInvariant st'
    /\ history st' = history st
    /\ (((historyIndex st < Z.of_nat (length (history st)) - 1)%Z
         /\ historyIndex st' = (historyIndex st + 1)%Z
         /\ isPlaying st' = isPlaying st)
        \/ (historyIndex st = (Z.of_nat (length (history st)) - 1)%Z
            /\ historyIndex st' = historyIndex st
            /\ isPlaying st' = false
            /\ orderbook st' = orderbook st
            /\ currentTime st' = currentTime st)).
Proof.
  intros Hinv. pose proof Hinv as [Hrange Hview]. unfold indexInRange in Hrange.
  destruct (Z.eq_dec (historyIndex st) (Z.of_nat (length (history st)) - 1))
    as [Hlast | Hmore].
  - eexists. split; [now apply playbackTick_stops |].
    split; [split; [exact Hrange | exact Hview] |].
    split; [reflexivity |]. right.
    split; [exact Hlast |]. repeat split.
  - destruct (playbackTick_advances Hinv ltac:(lia))
      as (st' & Htick & Hinv' & Hh & Hi & Hp).
    exists st'. split; [exact Htick |]. split; [exact Hinv' |].
    split; [exact Hh |]. left.
    split; [lia |]. split; [exact Hi | exact Hp].
Qed.

Lemma playback_tick_advances_or_stops_witness :
  replayInvariant replayMidway
  /\ exists st', playbackTick replayMidway = Some st' /\ historyIndex st' = 5%Z.
Proof.
  split; [exact replayMidway_invariant |].
  destruct (playback_tick_advances_or_stops replayMidway_invariant)
    as (st' & Htick & _).
  exists st'. split; [exact Htick |].
  injection Htick as <-. reflexivity.
Defined.

Lemma playTicks_paused (k : nat) (st : ReplayState) :
  isPlaying st = false -> playTicks k st = Some st.
Proof.
  intros Hp. induction k as [| k IH]; [reflexivity |].
  simpl. unfold playbackStep. rewrite Hp. simpl. exact IH.
Qed.

Lemma playbackStep_playing (st : ReplayState) :
  replayInvariant st -> isPlaying st = true ->
  playbackStep true st = playbackTick st.
Proof.
  intros [Hrange _] Hp. unfold indexInRange in Hrange.
  unfold playbackStep. rewrite Hp. simpl.
  destruct (Nat.eqb_spec (length (history st)) 0); [lia | reflexivity].
Qed.

Lemma playTicks_to_end (d : nat) :
  forall st,
    replayInvariant st -> isPlaying st = true ->
    Z.of_nat d = (Z.of_nat (length (history st)) - 1 - historyIndex st)%Z ->
    exists st',
      playTicks (S d) st = Some st'
      /\ replayInvariant st'
      /\ history st' = history st
      /\ historyIndex st' = (Z.of_nat (length (history st)) - 1)%Z
      /\ isPlaying st' = false.
Proof.
  induction d as [| d IH]; intros st Hinv Hp Hd.
  - assert (Hlast : historyIndex st = (Z.of_nat (length (history st)) - 1)%Z)
      by lia.
    eexists. simpl.
    rewrite (playbackStep_playing Hinv Hp), (playbackTick_stops st Hlast).
    split; [reflexivity |]. cbn [history historyIndex isPlaying].
    destruct Hinv as [Hrange Hview].
    split; [split; [exact Hrange | exact Hview] |].
    split; [reflexivity |]. split; [exact Hlast | reflexivity].
  - destruct (playbackTick_advances Hinv ltac:(lia))
      as (st1 & Htick & Hinv1 & Hh1 & Hi1 & Hp1).
    destruct (IH st1 Hinv1 ltac:(congruence) ltac:(rewrite Hh1, Hi1; lia))
      as (st' & Hplay & Hinv' & Hh & Hi & Hp').
    exists st'.
    change (playTicks (S (S d)) st)
      with (match playbackStep true st with
            | Some st2 => playTicks (S d) st2
            | None => None
            end).
    rewrite (playbackStep_playing Hinv Hp), Htick.
    repeat split; try apply Hinv'; auto; congruence.
Qed.

(** X4: playback runs to the last snapshot and stops there.  From a
    consistent replay view that is playing at index [i] of a history of [n]
    snapshots, [n - i] periods of the playback timer end on the last
    snapshot with the playback stopped and the view showing that snapshot;
    it never throws, and further periods change nothing (no loop back to the
    start). *)
Theorem playback_runs_to_the_end (st : ReplayState) :
  replayInvariant st -> isPlaying st = true ->
  exists st',
    playTicks (Z.to_nat (Z.of_nat (length (history st)) - historyIndex st)) st
    = Some st'
    /\ replayInvariant st'
    /\ history st' = history st
    /\ historyIndex st' = (Z.of_nat (length (history st)) - 1)%Z
    /\ isPlaying st' = false
    /\ forall k, playTicks k st' = Some st'.
Proof.
  intros Hinv Hp. pose proof Hinv as [Hrange _]. unfold indexInRange in Hrange.
  assert (Hd : Z.of_nat (Z.to_nat (Z.of_nat (length (history st)) - 1
                                    - historyIndex st))
               = (Z.of_nat (length (history st)) - 1 - historyIndex st)%Z) by lia.
  destruct (playTicks_to_end _ Hinv Hp Hd)
    as (st' & Hplay & Hinv' & Hh & Hi & Hp').
  exists st'.
  replace (Z.to_nat (Z.of_nat (length (history st)) - historyIndex st))
    with (S (Z.to_nat (Z.of_nat (length (history st)) - 1 - historyIndex st)))
    by lia.
  repeat split; try apply Hinv'; auto.
  intros k. now apply playTicks_paused.
Qed.

Lemma playback_runs_to_the_end_witness :
  replayInvariant replayMidway
  /\ isPlaying replayMidway = true
  /\ exists st', playTicks 6 replayMidway = Some st'
                 /\ historyIndex st' = 9%Z /\ isPlaying st' = false.
Proof.
  split; [exact replayMidway_invariant |]. split; [reflexivity |].
  destruct (playback_runs_to_the_end replayMidway_invariant eq_refl)
    as (st' & Hplay & _ & _ & Hi & Hp & _).
  exists st'. split; [exact Hplay |]. split; [exact Hi | exact Hp].
Defined.

(* ========================================================================= *)
(** * Further properties of the history fetch *)

Lemma downsample_length_stride (A : Type) (data : list A) :
  (MAX_SNAPSHOTS < length data)%nat ->
  let step := strideOf (length data) in
  let kept := length (downsample data) in
  (length data <= kept * step)%nat
  /\ ((0 < kept)%nat -> ((kept - 1) * step < length data)%nat).
Proof.
  intros Hlen step kept. split.
  - apply nth_error_None. unfold step.
    rewrite <- (downsample_nth data kept Hlen).
    apply nth_error_None. unfold kept. lia.
  - intros Hpos.
    destruct (Nat.lt_ge_cases ((kept - 1) * step) (length data)) as [H | H];
      [exact H |].
    apply nth_error_None in H. unfold step in H.
    rewrite <- (downsample_nth data (kept - 1) Hlen) in H.
    apply nth_error_None in H. unfold kept in *. lia.
Qed.

Lemma downsample_length_bounds (A : Type) (data : list A) :
  (length (downsample data) <= MAX_SNAPSHOTS)%nat
  /\ (length (downsample data) <= length data)%nat.
Proof.
  destruct (Nat.ltb_spec MAX_SNAPSHOTS (length data)) as [Hlen | Hlen].
  - destruct (downsample_length_stride data Hlen) as [Hup Hlow].
    pose proof (strideOf_bounds (length data)) as [Hs Hs0].
    specialize (Hs0 ltac:(lia)). unfold MAX_SNAPSHOTS in *.
    split.
    + destruct (Nat.eq_dec (length (downsample data)) 0) as [E | E]; [lia |].
      specialize (Hlow ltac:(lia)). nia.
    + destruct (Nat.eq_dec (length (downsample data)) 0) as [E | E]; [lia |].
      specialize (Hlow ltac:(lia)). nia.
  - unfold downsample.
    destruct (Nat.ltb_spec MAX_SNAPSHOTS (length data)); [lia |]. lia.
Qed.

(** X5: how many snapshots the downsampling keeps.  For a fetched history of
    more than 300 snapshots the filter keeps exactly
    ceil(n / ceil(n / 300)) of them, which is always more than 150 and at
    most 300: the playback history is never thinned below half of the cap. *)
Theorem downsample_keeps_over_half_the_cap (A : Type) (data : list A) :
  (MAX_SNAPSHOTS < length data)%nat ->
  length (downsample data) = ceilDiv (length data) (strideOf (length data))
  /\ (150 < length (downsample data) <= MAX_SNAPSHOTS)%nat.
Proof.
  intros Hlen.
  destruct (downsample_length_stride data Hlen) as [Hup Hlow].
  pose proof (strideOf_bounds (length data)) as [Hs Hs0].
  specialize (Hs0 ltac:(lia)).
  assert (Hstride : ((strideOf (length data) - 1) * MAX_SNAPSHOTS < length data)%nat).
  { unfold strideOf, ceilDiv, MAX_SNAPSHOTS in *.
    pose proof (Nat.div_mod_eq (length data) 300) as Hn.
    pose proof (Nat.mod_upper_bound (length data) 300 ltac:(lia)) as Hr.
    destruct (Nat.eqb_spec (length data mod 300) 0); lia. }
  set (step := strideOf (length data)) in *.
  set (kept := length (downsample data)) in *.
  set (n := length data) in *.
  assert (Hkept : (0 < kept)%nat) by (unfold MAX_SNAPSHOTS in *; nia).
  specialize (Hlow Hkept).
  split.
  - unfold ceilDiv.
    pose proof (Nat.div_mod_eq n step) as Hn.
    pose proof (Nat.mod_upper_bound n step ltac:(lia)) as Hr.
    destruct (Nat.eqb_spec (n mod step) 0) as [E | E]; nia.
  - unfold MAX_SNAPSHOTS in *. split; nia.
Qed.

Lemma downsample_keeps_over_half_the_cap_witness :
  (MAX_SNAPSHOTS < length (seq 0 301))%nat
  /\ length (downsample (seq 0 301)) = 151%nat.
Proof.
  split; [vm_compute; lia |].
  destruct (downsample_keeps_over_half_the_cap (seq 0 301)) as [H _];
    [vm_compute; lia |].
  rewrite H. reflexivity.
Defined.

Lemma downsample_head (A : Type) (data : list A) :
  nth_error (downsample data) 0 = nth_error data 0.
Proof.
  destruct (Nat.ltb_spec MAX_SNAPSHOTS (length data)) as [Hlen | Hlen].
  - now rewrite (downsample_nth data 0 Hlen).
  - unfold downsample.
    destruct (Nat.ltb_spec MAX_SNAPSHOTS (length data)); [lia | reflexivity].
Qed.

(** X6: the state the history fetch leaves.  Whatever the replay cells held
    before, after the fetch resolves with an array the history is the
    downsampled array (at most 300 snapshots), the index is 0 and playback is
    stopped.  With a non-empty array the view is consistent and shows the
    first fetched snapshot at its own timestamp; with an empty array there is
    no history and no displayed book, and the clock keeps its old value. *)
Theorem history_load_shows_first_snapshot (data : list Snapshot) (st : ReplayState) :
  let st' := historyLoaded data st in
  history st' = downsample data
  /\ (length (history st') <= MAX_SNAPSHOTS)%nat
  /\ historyIndex st' = 0%Z
  /\ isPlaying st' = false
  /\ match data with
     | first :: _ =>
         replayInvariant st'
         /\ orderbook st' = Some first
         /\ currentTime st' = Some (timestamp first)
     | [] =>
         history st' = [] /\ orderbook st' = None
         /\ currentTime st' = currentTime st
     end.
Proof.
  intros st'. unfold st', historyLoaded.
  pose proof (downsample_length_bounds data) as [Hcap _].
  pose proof (downsample_head data) as Hhead.
  destruct data as [| first rest].
  - cbn. repeat split; auto.
  - destruct (downsample (first :: rest)) as [| first' kept] eqn:E;
      [discriminate Hhead |].
    cbn in Hhead. injection Hhead as ->.
    cbn [history historyIndex isPlaying orderbook currentTime resetForLoad].
    repeat split; auto; cbn [history historyIndex length]; lia.
Qed.

(* ========================================================================= *)
(** * Further properties of the anomaly detector *)

Lemma slice_last_length (A : Type) (n : nat) (l : list A) :
  length (slice_last n l) = Nat.min n (length l).
Proof. unfold slice_last. rewrite length_skipn. lia. Qed.

Lemma slice_last_suffix (A : Type) (n : nat) (l : list A) :
  Suffix (slice_last n l) l.
Proof.
  exists (firstn (length l - n) l). unfold slice_last.
  symmetry. apply firstn_skipn.
Qed.

Lemma pushVolumes_length (hist volumes : list number) :
  (length (pushVolumes hist volumes) <= 100)%nat.
Proof.
  unfold pushVolumes.
  destruct (Nat.ltb_spec 100 (length (hist ++ volumes))) as [H | H].
  - rewrite slice_last_length. lia.
  - exact H.
Qed.

Lemma withinCaps_update (now : Z) (ob prev : Snapshot) (st : DetectorState) :
  withinCaps st -> withinCaps (detectorUpdate now ob prev st).
Proof.
  intros (_ & _ & Halerts & _ & Hheat).
  unfold withinCaps, detectorUpdate.
  cbn [volumeHistory_bids volumeHistory_asks spoofAlerts heatmapData].
  split; [apply pushVolumes_length |].
  split; [apply pushVolumes_length |].
  split.
  { destruct (0 <? length (snd (spoofPass _ _ _ _)))%nat; [| exact Halerts].
    rewrite length_firstn. lia. }
  split.
  { rewrite slice_last_length. lia. }
  unfold slice_last.
  assert (Hall : Forall (fun h => (length (heat_bids h) <= 15)%nat
                                  /\ (length (heat_asks h) <= 15)%nat)
                        (heatmapData st ++ [heatCapture now ob])).
  { apply Forall_app. split; [exact Hheat |].
    constructor; [| constructor].
    unfold heatCapture. cbn [heat_bids heat_asks].
    rewrite !length_firstn. lia. }
  rewrite <- (firstn_skipn
                (length (heatmapData st ++ [heatCapture now ob])
                 - HEATMAP_HISTORY_SIZE)
                (heatmapData st ++ [heatCapture now ob])) in Hall.
  apply Forall_app in Hall. apply Hall.
Qed.

Lemma withinCaps_cleared (st : DetectorState) :
  (length (volumeHistory_bids st) <= 100)%nat ->
  (length (volumeHistory_asks st) <= 100)%nat ->
  spoofAlerts st = [] -> heatmapData st = [] -> withinCaps st.
Proof.
  intros Hb Ha Hs Hh. unfold withinCaps. rewrite Hs, Hh.
  unfold HEATMAP_HISTORY_SIZE. cbn [length].
  split; [exact Hb |]. split; [exact Ha |].
  split; [lia |]. split; [lia | constructor].
Qed.

Lemma withinCaps_step (st : DetectorState) (ev : DetectorEvent) :
  withinCaps st -> withinCaps (detectorStep st ev).
Proof.
  intros Hst. destruct ev as [now r ob prev | | r]; cbn [detectorStep].
  - unfold detectionEffect.
    destruct ob as [ob |], prev as [prev |]; try exact Hst.
    destruct r; [exact Hst |].
    destruct (lastProcessed st) as [ref |].
    + destruct (Nat.eqb ref (snap_ref ob)); [exact Hst |].
      now apply withinCaps_update.
    + now apply withinCaps_update.
  - apply withinCaps_cleared; cbn; auto; lia.
  - destruct r; [| exact Hst].
    destruct Hst as (Hb & Ha & _).
    apply withinCaps_cleared; auto.
Qed.

(** X7: the detection cells stay within their caps.  After any sequence of
    detection-effect runs (whatever the clock, the mode and the snapshots),
    symbol changes and mode changes, starting from the initial render, each
    rolling volume window holds at most 100 samples, the alert list at most
    10 alerts, the heatmap window at most 30 captures, and every capture at
    most 15 levels a side. *)
Theorem detection_cells_stay_within_caps (events : list DetectorEvent) :
  withinCaps (detectorRun events).
Proof.
  unfold detectorRun.
  assert (H0 : withinCaps initialDetectorState).
  { apply withinCaps_cleared; cbn; auto; lia. }
  revert H0. generalize initialDetectorState.
  induction events as [| ev events IH]; intros st Hst; [exact Hst |].
  simpl. apply IH. now apply withinCaps_step.
Qed.

Lemma detectorUpdate_lastProcessed (now : Z) (ob prev : Snapshot)
    (st : DetectorState) :
  lastProcessed (detectorUpdate now ob prev st) = Some (snap_ref ob).
Proof. reflexivity. Qed.

Lemma detectionEffect_marks (now : Z) (ob prev : Snapshot) (st : DetectorState) :
  lastProcessed (detectionEffect now false (Some ob) (Some prev) st)
  = Some (snap_ref ob).
Proof.
  unfold detectionEffect.
  destruct (lastProcessed st) as [ref |] eqn:Hlast;
    [| apply detectorUpdate_lastProcessed].
  destruct (Nat.eqb_spec ref (snap_ref ob)) as [-> | Hne];
    [exact Hlast | apply detectorUpdate_lastProcessed].
Qed.

(** X8: a snapshot object is processed once.  A live run of the detection
    effect with both snapshots present records the current snapshot as
    processed; from then on every further run on that snapshot object
    changes nothing, whatever the previous snapshot, the mode and the clock
    are by then, so a change of [prevOrderbook] or of the mode alone does
    not make the detector count the same book twice.  A run in replay mode
    or with a snapshot missing changes nothing and records nothing. *)
Theorem detection_effect_runs_once (now now' : Z) (isReplayMode' : bool)
    (ob prev : Snapshot) (prev' : option Snapshot) (st : DetectorState) :
  let st1 := detectionEffect now false (Some ob) (Some prev) st in
  lastProcessed st1 = Some (snap_ref ob)
  /\ (lastProcessed st <> Some (snap_ref ob) ->
      st1 = detectorUpdate now ob prev st)
  /\ detectionEffect now' isReplayMode' (Some ob) prev' st1 = st1
  /\ (forall later,
        snap_ref later = snap_ref ob ->
        detectionEffect now' isReplayMode' (Some later) prev' st1 = st1)
  /\ (forall (mode : bool) (cur old : option Snapshot),
        mode = true \/ cur = None \/ old = None ->
        detectionEffect now mode cur old st = st).
Proof.
  intros st1.
  assert (Hmark : lastProcessed st1 = Some (snap_ref ob))
    by apply detectionEffect_marks.
  split; [exact Hmark |].
  split; [intros Hnew; now apply detectionEffect_runs |].
  assert (Hlater : forall later,
             snap_ref later = snap_ref ob ->
             detectionEffect now' isReplayMode' (Some later) prev' st1 = st1).
  { intros later Href. apply detectionEffect_skips.
    right. right. right. exists later. split; [reflexivity |].
    now rewrite Href. }
  split; [now apply Hlater |]. split; [exact Hlater |].
  intros mode cur old H. apply detectionEffect_skips. tauto.
Qed.

Lemma distinctKeys_putAll (V : Type) (es : list (number * V)) :
  forall m : JSMap.t V,
    distinctKeys m ->
    distinctKeys (fold_left (fun m e => JSMap.set (fst e) (snd e) m) es m).
Proof.
  induction es as [| e es IH]; intros m Hm; [exact Hm |].
  simpl. apply IH. now apply distinctKeys_set.
Qed.

Lemma distinctKeys_of_entries (V : Type) (es : list (number * V)) :
  distinctKeys (JSMap.of_entries es).
Proof. unfold JSMap.of_entries. apply distinctKeys_putAll. exact I. Qed.

Lemma get_putAll_source (V : Type) (es : list (number * V)) (p : number) (v : V) :
  forall m : JSMap.t V,
    JSMap.get p (fold_left (fun m e => JSMap.set (fst e) (snd e) m) es m) = Some v ->
    JSMap.get p m = Some v
    \/ exists e, In e es /\ same_value_zero p (fst e) = true /\ snd e = v.
Proof.
  induction es as [| e es IH]; intros m H; [now left |].
  simpl in H. apply IH in H. destruct H as [H | (e' & Hin & He')].
  - rewrite get_set in H.
    destruct (same_value_zero p (fst e)) eqn:Hp.
    + right. exists e. split; [now left |]. split; [exact Hp | congruence].
    + now left.
  - right. exists e'. split; [now right | exact He'].
Qed.

Lemma get_levels_source (levels : list PriceLevel) (p vol : number) :
  JSMap.get p (JSMap.of_entries (levelEntries levels)) = Some vol ->
  exists l, In l levels /\ same_value_zero p (price l) = true /\ volume l = vol.
Proof.
  intros H. apply get_putAll_source in H.
  destruct H as [H | (e & Hin & Hp & Hv)]; [discriminate |].
  apply in_map_iff in Hin. destruct Hin as (l & <- & Hin).
  now exists l.
Qed.

Lemma getOrZero_congr (m : JSMap.t number) (k k' : number) :
  same_value_zero k k' = true -> getOrZero k m = getOrZero k' m.
Proof. intros H. unfold getOrZero. now rewrite (get_congr m k k' H). Qed.

(** The flag a pass of [forEach] over a map leaves at a price. *)
Lemma get_fold_markChanges (ty : ChangeType) (side : Side) (threshold : number)
    (other : JSMap.t number) (p : number) (es : JSMap.t number) :
  distinctKeys es ->
  forall acc,
    JSMap.get p (fold_left (markChanges ty side threshold other) es acc)
    = match JSMap.get p es with
      | Some vol =>
          if gt (sub vol (getOrZero p other)) threshold
          then Some {| change_type := ty; change_side := side |}
          else JSMap.get p acc
      | None => JSMap.get p acc
      end.
Proof.
  induction es as [| [k0 v0] es IH]; intros Hd acc; [reflexivity |].
  destruct Hd as [Hfresh Hd].
  cbn [fold_left]. rewrite (IH Hd). cbn [JSMap.get].
  unfold markChanges at 1 2. cbn [fst snd].
  destruct (same_value_zero p k0) eqn:Hp.
  - rewrite (get_congr es p k0 Hp), Hfresh.
    rewrite (getOrZero_congr other p k0 Hp).
    destruct (gt (sub v0 (getOrZero k0 other)) threshold); [| reflexivity].
    now rewrite get_set, Hp.
  - destruct (gt (sub v0 (getOrZero k0 other)) threshold); [| reflexivity].
    now rewrite get_set, Hp.
Qed.

Lemma detectChanges_get (current previous : list PriceLevel) (side : Side)
    (p : number) :
  JSMap.get p (fst (detectChanges current previous side))
  = expectedChange (JSMap.of_entries (levelEntries current))
      (JSMap.of_entries (levelEntries previous))
      (mul (snd (detectChanges current previous side)) LARGE_ORDER_THRESHOLD)
      side p.
Proof.
  unfold detectChanges, expectedChange. cbn [fst snd]. unfold JSMap.entries.
  rewrite get_fold_markChanges by apply distinctKeys_of_entries.
  rewrite get_fold_markChanges by apply distinctKeys_of_entries.
  reflexivity.
Qed.

(** X9: what [detectChanges] flags, price by price.  The flag stored at a
    price is 'removed' when the previous book holds the price with a volume
    that exceeds the current one by more than twice the current average
    size; otherwise 'added' when the current book holds it with a volume
    that exceeds the previous one by more than that same threshold; and no
    flag otherwise.  A flagged price is always the price of a level of one
    of the two books. *)
Theorem detect_changes_flag_at_price (current previous : list PriceLevel)
    (side : Side) (p : number) :
  let currentMap := JSMap.of_entries (levelEntries current) in
  let prevMap := JSMap.of_entries (levelEntries previous) in
  let threshold :=
    mul (average (JSMap.values currentMap)) LARGE_ORDER_THRESHOLD in
  JSMap.get p (fst (detectChanges current previous side))
  = expectedChange currentMap prevMap threshold side p
  /\ (JSMap.has p (fst (detectChanges current previous side)) = true ->
      exists l, In l (current ++ previous)
                /\ same_value_zero p (price l) = true).
Proof.
  intros currentMap prevMap threshold.
  split; [apply detectChanges_get |].
  unfold JSMap.has. rewrite detectChanges_get.
  fold currentMap prevMap. unfold expectedChange.
  destruct (JSMap.get p prevMap) as [pv |] eqn:Hprev.
  - intros _. destruct (get_levels_source _ _ Hprev) as (l & Hin & Hp & _).
    exists l. split; [apply in_or_app; now right | exact Hp].
  - destruct (JSMap.get p currentMap) as [cv |] eqn:Hcur; [| discriminate].
    intros _. destruct (get_levels_source _ _ Hcur) as (l & Hin & Hp & _).
    exists l. split; [apply in_or_app; now left | exact Hp].
Qed.

(* ========================================================================= *)
(** ** Signs of sums and averages of volumes *)

Lemma signClear_round (m : positive) (e : Z) :
  signClear (binary_round prec emax false m e) = true.
Proof.
  unfold binary_round.
  destruct (shl_align m e _) as [mz ez].
  pose proof (binary_round_aux_sign false (Z.pos mz) ez loc_Exact) as Hs.
  destruct (binary_round_aux prec emax false (Z.pos mz) ez loc_Exact)
    as [s' | s' | | s' m' e']; try subst s'; reflexivity.
Qed.

Lemma signClear_round_aux (m e : Z) (loc : location) :
  signClear (binary_round_aux prec emax false m e loc) = true.
Proof.
  pose proof (binary_round_aux_sign false m e loc) as Hs.
  destruct (binary_round_aux prec emax false m e loc)
    as [s' | s' | | s' m' e']; try subst s'; reflexivity.
Qed.

Lemma signClear_of_nat (n : nat) : signClear (of_nat n) = true.
Proof.
  unfold of_nat, of_Z. destruct n as [| n]; [reflexivity |].
  change (Z.of_nat (S n)) with (Z.pos (Pos.of_succ_nat n)).
  cbn [binary_normalize]. apply signClear_round.
Qed.

Lemma notNegative_cases (x : number) :
  notNegative x = true ->
  signClear x = true \/ exists s, x = S754_zero s.
Proof.
  destruct x as [s | [|] | | [|] m e]; cbn; intros H;
    try discriminate; try (now left); right; now exists s.
Qed.

Lemma signClear_add (a x : number) :
  signClear a = true -> notNegative x = true -> signClear (add a x) = true.
Proof.
  intros Ha Hx. apply notNegative_cases in Hx.
  destruct a as [[|] | [|] | | [|] ma ea]; cbn in Ha; try discriminate;
    destruct Hx as [Hx | [s ->]];
    try (destruct s; reflexivity);
    destruct x as [[|] | [|] | | [|] mx ex]; cbn in Hx;
      try discriminate; try reflexivity.
  unfold add, SFadd. cbn [cond_Zopp Z.add binary_normalize].
  apply signClear_round.
Qed.

Lemma signClear_div (a b : number) :
  signClear a = true -> signClear b = true -> signClear (div a b) = true.
Proof.
  intros Ha Hb.
  destruct a as [[|] | [|] | | [|] ma ea]; cbn in Ha; try discriminate;
    destruct b as [[|] | [|] | | [|] mb eb]; cbn in Hb;
      try discriminate; try reflexivity.
  unfold div, SFdiv.
  destruct (SFdiv_core_binary prec emax (Z.pos ma) ea (Z.pos mb) eb)
    as [[mz ez] lz].
  apply signClear_round_aux.
Qed.

Lemma signClear_mul (a b : number) :
  signClear a = true -> signClear b = true -> signClear (mul a b) = true.
Proof.
  intros Ha Hb.
  destruct a as [[|] | [|] | | [|] ma ea]; cbn in Ha; try discriminate;
    destruct b as [[|] | [|] | | [|] mb eb]; cbn in Hb;
      try discriminate; try reflexivity.
  unfold mul, SFmul. apply signClear_round_aux.
Qed.

Lemma signClear_sum (xs : list number) :
  Forall (fun x => notNegative x = true) xs ->
  forall acc, signClear acc = true -> signClear (fold_left add xs acc) = true.
Proof.
  induction 1 as [| x xs Hx _ IH]; intros acc Hacc; [exact Hacc |].
  simpl. apply IH. now apply signClear_add.
Qed.

Lemma signClear_average (xs : list number) :
  Forall (fun x => notNegative x = true) xs -> signClear (average xs) = true.
Proof.
  intros Hxs. unfold average.
  destruct (0 <? length xs)%nat; [| reflexivity].
  apply signClear_div; [| apply signClear_of_nat].
  unfold sum. now apply signClear_sum.
Qed.

(** A volume never exceeds itself by more than a threshold that is not
    negative: the difference is a zero or NaN. *)
Lemma unchanged_volume_below_threshold (vol threshold : number) :
  signClear threshold = true ->
  gt (sub vol (or_zero vol)) threshold = false.
Proof.
  intros Hth.
  assert (Hdiff : sub vol (or_zero vol) = S754_nan
                  \/ exists s, sub vol (or_zero vol) = S754_zero s).
  { destruct vol as [[|] | [|] | | s m e]; cbn;
      try (now left); try (right; eexists; reflexivity).
    right. exists false. unfold sub, SFsub.
    now rewrite Z.sub_diag. }
  destruct Hdiff as [-> | [s ->]];
    destruct threshold as [[|] | [|] | | [|] mt et]; cbn in Hth;
      try discriminate; reflexivity.
Qed.

Lemma values_putAll (V : Type) (P : V -> Prop) (es : list (number * V)) :
  Forall (fun e => P (snd e)) es ->
  forall m : JSMap.t V,
    Forall P (JSMap.values m) ->
    Forall P (JSMap.values
                (fold_left (fun m e => JSMap.set (fst e) (snd e) m) es m)).
Proof.
  induction 1 as [| e es He _ IH]; intros m Hm; [exact Hm |].
  simpl. apply IH. now apply values_set.
Qed.

Lemma get_nowhere_empty (V : Type) (m : JSMap.t V) :
  (forall p, JSMap.get p m = None) -> m = JSMap.empty.
Proof.
  destruct m as [| [k v] m]; [reflexivity |].
  intros H. specialize (H k). simpl in H.
  now rewrite same_value_zero_refl in H.
Qed.

Lemma detectChanges_unchanged (levels : list PriceLevel) (side : Side) :
  Forall (fun l => notNegative (volume l) = true) levels ->
  fst (detectChanges levels levels side) = JSMap.empty.
Proof.
  intros Hvol. apply get_nowhere_empty. intros p.
  rewrite detectChanges_get. unfold expectedChange.
  assert (Hth : signClear
                  (mul (snd (detectChanges levels levels side))
                       LARGE_ORDER_THRESHOLD) = true).
  { apply signClear_mul; [| reflexivity].
    unfold detectChanges. cbn [snd]. apply signClear_average.
    unfold JSMap.of_entries.
    apply values_putAll; [| constructor].
    unfold levelEntries. apply Forall_map. exact Hvol. }
  unfold getOrZero.
  destruct (JSMap.get p (JSMap.of_entries (levelEntries levels))) as [vol |];
    [| reflexivity].
  now rewrite unchanged_volume_below_threshold by exact Hth.
Qed.

(** X10: a book that did not change raises no flash.  When the two
    snapshots hold the same bid levels and the same ask levels and no volume
    is negative, [detectChanges] flags nothing on either side, the merged
    map is empty and the update leaves the flashing prices as they were. *)
Theorem unchanged_book_raises_no_flash (now : Z) (ob prev : Snapshot)
    (st : DetectorState) :
  bids ob = bids prev -> asks ob = asks prev ->
  Forall (fun l => notNegative (volume l) = true) (bids ob ++ asks ob) ->
  fst (detectChanges (bids ob) (bids prev) bid) = JSMap.empty
  /\ fst (detectChanges (asks ob) (asks prev) ask) = JSMap.empty
  /\ flashingPrices (detectorUpdate now ob prev st) = flashingPrices st.
Proof.
  intros Hb Ha Hvol. apply Forall_app in Hvol. destruct Hvol as [Hvb Hva].
  rewrite <- Hb, <- Ha.
  pose proof (detectChanges_unchanged bid Hvb) as Eb.
  pose proof (detectChanges_unchanged ask Hva) as Ea.
  split; [exact Eb |]. split; [exact Ea |].
  rewrite detectorUpdate_flashing. rewrite <- Hb, <- Ha, Eb, Ea.
  reflexivity.
Qed.

Lemma unchanged_book_raises_no_flash_witness :
  flashingPrices
    (detectorUpdate 1000 (liveSnapshot 2 (bids smallBook) (asks smallBook))
       smallBook afterFeedSecond)
  = flashingPrices afterFeedSecond.
Proof.
  apply (unchanged_book_raises_no_flash 1000
           (liveSnapshot 2 (bids smallBook) (asks smallBook)) smallBook
           afterFeedSecond eq_refl eq_refl).
  repeat constructor.
Defined.

(* ========================================================================= *)
(** ** The liquidity history and the alerts of one pass *)

Lemma size_set (V : Type) (m : JSMap.t V) (k : number) (v : V) :
  (JSMap.size m <= JSMap.size (JSMap.set k v m))%nat.
Proof.
  unfold JSMap.size. induction m as [| [k0 v0] m IH]; simpl; [lia |].
  destruct (same_value_zero k k0); simpl; lia.
Qed.

Lemma spoofFold_untouched (now : Z) (avgVol : number) (k : number)
    (levels : list PriceLevel) :
  (forall l, In l levels -> same_value_zero k (price l) = false) ->
  forall acc,
    JSMap.get k (fst (fold_left (spoofStep now avgVol) levels acc))
    = JSMap.get k (fst acc).
Proof.
  induction levels as [| x levels IH]; intros Hk acc; [reflexivity |].
  simpl. rewrite IH by (intros l Hl; apply Hk; now right).
  destruct acc as [m d]. rewrite spoofStep_get.
  now rewrite (Hk x (or_introl eq_refl)).
Qed.

Lemma spoofFold_keeps_keys (now : Z) (avgVol : number) (k : number)
    (levels : list PriceLevel) :
  forall acc,
    JSMap.has k (fst acc) = true ->
    JSMap.has k (fst (fold_left (spoofStep now avgVol) levels acc)) = true.
Proof.
  induction levels as [| x levels IH]; intros acc Hacc; [exact Hacc |].
  simpl. apply IH. destruct acc as [m d]. unfold JSMap.has.
  rewrite spoofStep_get.
  destruct (same_value_zero k (price x)); [reflexivity | exact Hacc].
Qed.

Lemma spoofFold_size (now : Z) (avgVol : number) (levels : list PriceLevel) :
  forall acc,
    (JSMap.size (fst acc)
     <= JSMap.size (fst (fold_left (spoofStep now avgVol) levels acc)))%nat.
Proof.
  induction levels as [| x levels IH]; intros acc; [simpl; lia |].
  simpl. etransitivity; [| apply IH].
  destruct acc as [m d]. rewrite spoofStep_map.
  etransitivity; [| apply size_set].
  cbn [fst]. destruct (JSMap.get (price x) m); [apply size_set | lia].
Qed.

(** X11: the liquidity history only grows.  An update of the detector
    never removes a price from the liquidity history (the branch that
    deletes a price is never taken, since the samples kept always include
    the one just pushed), it leaves the sample list of every price that is
    not in the current snapshot exactly as it was, and so the number of
    prices held never goes down. *)
Theorem liquidity_history_only_grows (now : Z) (ob prev : Snapshot)
    (st : DetectorState) (k : number) :
  (JSMap.has k (recentLiquidity st) = true ->
   JSMap.has k (recentLiquidity (detectorUpdate now ob prev st)) = true)
  /\ ((forall l, In l (bids ob ++ asks ob) -> same_value_zero k (price l) = false) ->
      JSMap.get k (recentLiquidity (detectorUpdate now ob prev st))
      = JSMap.get k (recentLiquidity st))
  /\ (JSMap.size (recentLiquidity st)
      <= JSMap.size (recentLiquidity (detectorUpdate now ob prev st)))%nat.
Proof.
  unfold detectorUpdate. cbn [recentLiquidity]. unfold spoofPass.
  split; [| split].
  - intros Hk. now apply spoofFold_keeps_keys.
  - intros Hk. now rewrite spoofFold_untouched.
  - match goal with
    | |- (_ <= JSMap.size (fst (fold_left _ _ ?acc)))%nat =>
        apply (spoofFold_size now _ (bids ob ++ asks ob) acc)
    end.
Qed.

Lemma liquidity_history_only_grows_witness :
  JSMap.has (of_Z 100) (recentLiquidity afterFeedThird) = true.
Proof.
  apply (liquidity_history_only_grows 6000 feedThird feedSecond
           afterFeedSecond (of_Z 100)).
  reflexivity.
Defined.

Lemma spoofFold_alerts (now : Z) (avgVol : number) (levels : list PriceLevel) :
  forall acc a,
    In a (snd (fold_left (spoofStep now avgVol) levels acc)) ->
    In a (snd acc)
    \/ (alert_time a = now
        /\ gt (alert_maxVol a) (mul avgVol (of_Z 3)) = true
        /\ exists l, In l levels /\ alert_price a = price l).
Proof.
  induction levels as [| x levels IH]; intros acc a Ha; [now left |].
  simpl in Ha. apply IH in Ha.
  destruct Ha as [Ha | (Ht & Hv & l & Hl & Hp)].
  - destruct acc as [m d]. rewrite spoofStep_alerts in Ha.
    destruct (spoofConditionNoSpan avgVol (retainedSamples now m x)) eqn:Hc;
      [| now left].
    apply in_app_or in Ha. destruct Ha as [Ha | [<- | []]]; [now left |].
    right. split; [reflexivity |].
    unfold spoofConditionNoSpan in Hc.
    apply andb_prop in Hc. destruct Hc as [Hc _].
    apply andb_prop in Hc. destruct Hc as [_ Hc].
    split; [exact Hc |]. exists x. split; [now left | reflexivity].
  - right. split; [exact Ht |]. split; [exact Hv |].
    exists l. split; [now right | exact Hp].
Qed.

Lemma spoofFold_alert_count (now : Z) (avgVol : number) (levels : list PriceLevel) :
  forall acc,
    (length (snd (fold_left (spoofStep now avgVol) levels acc))
     <= length (snd acc) + length levels)%nat.
Proof.
  induction levels as [| x levels IH]; intros acc; [simpl; lia |].
  simpl. etransitivity; [apply IH |].
  destruct acc as [m d]. rewrite spoofStep_alerts. cbn [snd].
  destruct (spoofConditionNoSpan _ _); [rewrite length_app; simpl |]; lia.
Qed.

(** X12: the alerts of one pass over the snapshot.  Every alert the spoof
    loop pushes carries the current time, the price of a level of the
    snapshot and a maximum volume above three times the average volume; the
    pass pushes at most one alert per level. *)
Theorem spoof_alerts_come_from_levels (now : Z) (avgVol : number)
    (ob : Snapshot) (liquidityMap : JSMap.t (list Sample)) (a : SpoofAlert) :
  In a (snd (spoofPass now avgVol ob liquidityMap)) ->
  alert_time a = now
  /\ gt (alert_maxVol a) (mul avgVol (of_Z 3)) = true
  /\ (exists l, In l (bids ob ++ asks ob) /\ alert_price a = price l)
  /\ (length (snd (spoofPass now avgVol ob liquidityMap))
      <= length (bids ob ++ asks ob))%nat.
Proof.
  unfold spoofPass. intros Ha.
  apply spoofFold_alerts in Ha. destruct Ha as [[] | (Ht & Hv & Hl)].
  split; [exact Ht |]. split; [exact Hv |]. split; [exact Hl |].
  apply (spoofFold_alert_count now avgVol (bids ob ++ asks ob) (liquidityMap, [])).
Qed.

Lemma spoof_alerts_come_from_levels_witness :
  In {| alert_price := of_Z 100; alert_maxVol := of_Z 50; alert_time := 1000 |}
     (snd (spoofPass 1000 (of_Z 1) pulledBook pulledLiquidity))
  /\ gt (of_Z 50) (mul (of_Z 1) (of_Z 3)) = true.
Proof.
  assert (Hin : In {| alert_price := of_Z 100; alert_maxVol := of_Z 50;
                      alert_time := 1000 |}
                   (snd (spoofPass 1000 (of_Z 1) pulledBook pulledLiquidity))).
  { vm_compute. left. reflexivity. }
  split; [exact Hin |].
  apply (spoof_alerts_come_from_levels 1000 (of_Z 1) pulledBook
           pulledLiquidity _ Hin).
Defined.

(* ========================================================================= *)
(** * Further properties of the ladders *)

Lemma keys_set (V : Type) (m : JSMap.t V) (k : number) (v : V) (k' : number) :
  storedKeys m ->
  (In k' (map fst (JSMap.set k v m)) <-> k' = key_of k \/ In k' (map fst m)).
Proof.
  unfold storedKeys.
  induction m as [| [k0 v0] m IH]; simpl; intros Hm.
  - intuition congruence.
  - inversion Hm as [| ? ? H0 Hm']; subst. simpl in H0.
    destruct (same_value_zero k k0) eqn:Hk; simpl.
    + apply same_value_zero_key in Hk.
      assert (k0 = key_of k) by congruence. intuition congruence.
    + specialize (IH Hm'). intuition congruence.
Qed.

Lemma size_set_upper (V : Type) (m : JSMap.t V) (k : number) (v : V) :
  (length (JSMap.set k v m) <= S (length m))%nat.
Proof.
  induction m as [| [k0 v0] m IH]; simpl; [lia |].
  destruct (same_value_zero k k0); simpl; lia.
Qed.

Lemma aggregateStep_set (tickSize : number) (isBid : bool)
    (m : JSMap.t number) (l : PriceLevel) :
  exists v,
    aggregateStep tickSize isBid m l
    = JSMap.set (roundedPrice (price l) tickSize isBid) v m.
Proof.
  unfold aggregateStep.
  destruct (JSMap.get _ m) as [v |]; eexists; reflexivity.
Qed.

Lemma aggregated_key_set (tickSize : number) (isBid : bool)
    (orders : list PriceLevel) (k : number) :
  forall m,
    storedKeys m ->
    (In k (map fst (fold_left (aggregateStep tickSize isBid) orders m))
     <-> In k (map fst m)
         \/ exists l, In l orders
                      /\ k = key_of (roundedPrice (price l) tickSize isBid)).
Proof.
  induction orders as [| l orders IH]; intros m Hm; simpl.
  - split; [now left | intros [H | (l & [] & _)]; exact H].
  - destruct (aggregateStep_set tickSize isBid m l) as [v Hv].
    rewrite Hv. rewrite IH by now apply storedKeys_set.
    rewrite keys_set by exact Hm.
    split.
    + intros [[-> | H] | (l' & Hl' & Hk)].
      * right. exists l. split; [now left | reflexivity].
      * now left.
      * right. exists l'. split; [now right | exact Hk].
    + intros [H | (l' & [<- | Hl'] & Hk)].
      * left. now right.
      * left. now left.
      * right. now exists l'.
Qed.

Lemma aggregated_size (tickSize : number) (isBid : bool)
    (orders : list PriceLevel) :
  forall m,
    (length (fold_left (aggregateStep tickSize isBid) orders m)
     <= length m + length orders)%nat.
Proof.
  induction orders as [| l orders IH]; intros m; simpl; [lia |].
  etransitivity; [apply IH |].
  destruct (aggregateStep_set tickSize isBid m l) as [v ->].
  pose proof (size_set_upper m (roundedPrice (price l) tickSize isBid) v). lia.
Qed.

Lemma aggregate_prices (orders : list PriceLevel) (tickSize : number)
    (isBid : bool) :
  Permutation
    (map agg_price (aggregateByTickSize orders tickSize isBid))
    (map fst (fold_left (aggregateStep tickSize isBid) orders JSMap.empty)).
Proof.
  unfold aggregateByTickSize, JSMap.entries.
  etransitivity; [apply Permutation_map, js_sort_perm |].
  rewrite map_map. cbn [entryBucket agg_price]. apply Permutation_refl.
Qed.

Lemma aggregate_length (orders : list PriceLevel) (tickSize : number)
    (isBid : bool) :
  (length (aggregateByTickSize orders tickSize isBid) <= length orders)%nat.
Proof.
  unfold aggregateByTickSize, JSMap.entries.
  rewrite (Permutation_length (js_sort_perm _ _)), length_map.
  apply (aggregated_size tickSize isBid orders JSMap.empty).
Qed.

(** X13: the shape of an aggregated ladder.  For every list of levels, tick
    size and side, and in whatever order the sort leaves the buckets, the
    buckets of [aggregateByTickSize] have pairwise different prices, are no
    more than the levels and all carry total 0, and the bucket prices are
    exactly the tick-rounded prices of the levels (with -0 stored as 0), so
    every level falls into a bucket of the ladder.  When no rounded price is
    NaN, so that the comparator is consistent, the ladder is in the order
    the comparator asks for. *)
Theorem aggregated_ladder_shape (orders : list PriceLevel) (tickSize : number)
    (isBid : bool) :
  let ladder := aggregateByTickSize orders tickSize isBid in
  (forall arranged,
      Permutation arranged ladder ->
      NoDup (map agg_price arranged)
      /\ (length arranged <= length orders)%nat
      /\ Forall (fun a => total a = zero) arranged
      /\ forall p,
           In p (map agg_price arranged)
           <-> exists l, In l orders
                         /\ p = key_of (roundedPrice (price l) tickSize isBid))
  /\ (Forall (fun l => is_nan (roundedPrice (price l) tickSize isBid) = false)
             orders ->
      inSortOrder (ladderCompare isBid) ladder).
Proof.
  intros ladder.
  destruct (aggregated_keys tickSize isBid orders (m := JSMap.empty))
    as [Hstored Hdistinct]; [split; [constructor | exact I] |].
  split; [| intros _; apply js_sort_sorted; apply ladderCompare_antisym].
  intros arranged Harr.
  assert (Hprices : Permutation (map agg_price arranged)
                      (map fst (fold_left (aggregateStep tickSize isBid)
                                  orders JSMap.empty))).
  { etransitivity; [apply Permutation_map, Harr |]. apply aggregate_prices. }
  split.
  { apply (Permutation_NoDup (Permutation_sym Hprices)).
    now apply distinctKeys_NoDup. }
  split.
  { rewrite (Permutation_length Harr). apply aggregate_length. }
  split.
  { apply (Permutation_Forall (Permutation_sym Harr)).
    unfold ladder, aggregateByTickSize.
    apply (Permutation_Forall (Permutation_sym (js_sort_perm _ _))).
    apply Forall_map. apply Forall_forall. reflexivity. }
  intros p. split.
  - intros Hp. apply (Permutation_in _ Hprices) in Hp.
    apply aggregated_key_set in Hp; [| constructor].
    destruct Hp as [[] | Hp]. exact Hp.
  - intros Hp. apply (Permutation_in _ (Permutation_sym Hprices)).
    apply aggregated_key_set; [constructor | now right].
Qed.

Lemma aggregated_ladder_shape_witness :
  inSortOrder (ladderCompare true) (aggregateByTickSize unitBids (of_Z 1) true)
  /\ map agg_price (aggregateByTickSize unitBids (of_Z 1) true)
     = [of_Z 100; of_Z 99].
Proof.
  split; [| vm_compute; reflexivity].
  apply (aggregated_ladder_shape unitBids (of_Z 1) true).
  apply Forall_forall. intros l Hl. vm_compute in Hl.
  destruct Hl as [<- | [<- | [<- | []]]]; vm_compute; reflexivity.
Defined.

Lemma cumulate_prices (ladder : list AggregatedLevel) :
  forall cum, map agg_price (cumulate cum ladder) = map agg_price ladder.
Proof.
  induction ladder as [| lv rest IH]; intros cum; [reflexivity |].
  simpl. now rewrite IH.
Qed.

Lemma cumulate_length (ladder : list AggregatedLevel) :
  forall cum, length (cumulate cum ladder) = length ladder.
Proof.
  intros cum. rewrite <- (length_map agg_price), cumulate_prices.
  apply length_map.
Qed.

Lemma filterByRange_incl (range mid : number) (orders : list PriceLevel) :
  incl (filterByRange range mid orders) orders
  /\ (length (filterByRange range mid orders) <= length orders)%nat.
Proof.
  unfold filterByRange. destruct (ge range (of_Z 20)).
  - split; [apply incl_refl | lia].
  - split; [apply incl_filter | apply filter_length_le].
Qed.

Lemma NoDup_firstn_map (A B : Type) (f : A -> B) (n : nat) (l : list A) :
  NoDup (map f l) -> NoDup (map f (firstn n l)).
Proof.
  intros H. rewrite <- (firstn_skipn n l), map_app in H.
  now apply NoDup_app_remove_r in H.
Qed.

Lemma in_firstn_in (A : Type) (n : nat) (l : list A) (x : A) :
  In x (firstn n l) -> In x l.
Proof.
  intros H. rewrite <- (firstn_skipn n l). apply in_or_app. now left.
Qed.

Lemma slice_to_firstn (A : Type) (n : Z) (l : list A) :
  exists k, slice_to n l = firstn k l.
Proof. unfold slice_to. destruct (n <? 0)%Z; eexists; reflexivity. Qed.

Lemma slice_to_length (A : Type) (n : Z) (l : list A) :
  Z.of_nat (length (slice_to n l)) = keptBySlice n (length l).
Proof.
  unfold slice_to, keptBySlice.
  destruct (Z.ltb_spec n 0); rewrite length_firstn; lia.
Qed.

Lemma shown_side (ob : Snapshot) (range tickSize : number) (isBid : bool)
    (depth : Z) :
  let orders := if isBid then bids ob else asks ob in
  let shown := slice_to depth (aggregatedSide ob range tickSize isBid) in
  (length shown <= length orders)%nat
  /\ NoDup (map agg_price shown)
  /\ forall p, In p (map agg_price shown) ->
       exists l, In l orders
                 /\ p = key_of (roundedPrice (price l) tickSize isBid).
Proof.
  intros orders shown.
  destruct (filterByRange_incl range (midPriceOf ob) orders) as [Hincl Hlen].
  pose proof (aggregate_length (filterByRange range (midPriceOf ob) orders)
                tickSize isBid) as Hagg.
  destruct (slice_to_firstn depth (aggregatedSide ob range tickSize isBid))
    as [k Hk].
  unfold shown. rewrite Hk. unfold aggregatedSide. fold orders.
  split; [rewrite length_firstn; lia |].
  split.
  { apply NoDup_firstn_map.
    apply (Permutation_NoDup
             (Permutation_sym (aggregate_prices _ tickSize isBid))).
    apply distinctKeys_NoDup.
    apply (aggregated_keys tickSize isBid
             (filterByRange range (midPriceOf ob) orders) (m := JSMap.empty)).
    split; [constructor | exact I]. }
  intros p Hp. apply in_map_iff in Hp. destruct Hp as (a & <- & Ha).
  apply in_firstn_in in Ha.
  assert (Hin : In (agg_price a)
                   (map agg_price
                      (aggregateByTickSize
                         (filterByRange range (midPriceOf ob) orders)
                         tickSize isBid)))
    by now apply in_map.
  apply (Permutation_in _ (aggregate_prices _ tickSize isBid)) in Hin.
  apply aggregated_key_set in Hin; [| constructor].
  destruct Hin as [[] | (l & Hl & Hpl)].
  exists l. split; [now apply Hincl | exact Hpl].
Qed.

(** X14: the size and the prices of the formatted ladders.  Without an
    order book both ladders are empty and the scale is 0.  With one, each
    ladder holds the buckets that [slice(0, depth)] keeps of the aggregated
    side: at most [depth] of them when [depth] is 0 or more, all but the
    last [-depth] when [depth] is negative, and never more than the raw
    levels of the side.  The prices of a ladder are pairwise different, and
    each is the tick-rounded price of a raw level of that side (floor for
    bids, ceiling for asks). *)
Theorem formatted_ladders_are_bounded (ob : Snapshot)
    (depthRangePercent tickSize : number) (depth : Z) :
  let f := formatOrderbookData (Some ob) depthRangePercent tickSize depth in
  let allBids := aggregatedSide ob depthRangePercent tickSize true in
  let allAsks := aggregatedSide ob depthRangePercent tickSize false in
  formatOrderbookData None depthRangePercent tickSize depth
  = {| fmt_bids := []; fmt_asks := []; maxTotal := zero |}
  /\ map agg_price (fmt_bids f) = rev (map agg_price (slice_to depth allBids))
  /\ map agg_price (fmt_asks f) = map agg_price (slice_to depth allAsks)
  /\ Z.of_nat (length (fmt_bids f)) = keptBySlice depth (length allBids)
  /\ Z.of_nat (length (fmt_asks f)) = keptBySlice depth (length allAsks)
  /\ ((0 <= depth)%Z ->
      (Z.of_nat (length (fmt_bids f)) <= depth)%Z
      /\ (Z.of_nat (length (fmt_asks f)) <= depth)%Z)
  /\ ((depth < 0)%Z ->
      Z.of_nat (length (fmt_bids f))
      = Z.max 0 (Z.of_nat (length allBids) + depth)
      /\ Z.of_nat (length (fmt_asks f))
         = Z.max 0 (Z.of_nat (length allAsks) + depth))
  /\ (length (fmt_bids f) <= length (bids ob))%nat
  /\ (length (fmt_asks f) <= length (asks ob))%nat
  /\ NoDup (map agg_price (fmt_bids f))
  /\ NoDup (map agg_price (fmt_asks f))
  /\ (forall p, In p (map agg_price (fmt_bids f)) ->
        exists l, In l (bids ob)
                  /\ p = key_of (roundedPrice (price l) tickSize true))
  /\ (forall p, In p (map agg_price (fmt_asks f)) ->
        exists l, In l (asks ob)
                  /\ p = key_of (roundedPrice (price l) tickSize false)).
Proof.
  intros f allBids allAsks. split; [reflexivity |].
  assert (Hfb : map agg_price (fmt_bids f)
                = rev (map agg_price (slice_to depth allBids))).
  { unfold f, formatOrderbookData. cbn [fmt_bids].
    now rewrite cumulate_prices, map_rev. }
  assert (Hfa : map agg_price (fmt_asks f)
                = map agg_price (slice_to depth allAsks)).
  { unfold f, formatOrderbookData. cbn [fmt_asks].
    now rewrite cumulate_prices. }
  assert (Hlb : length (fmt_bids f) = length (slice_to depth allBids)).
  { rewrite <- (length_map agg_price), Hfb, length_rev. apply length_map. }
  assert (Hla : length (fmt_asks f) = length (slice_to depth allAsks)).
  { rewrite <- (length_map agg_price), Hfa. apply length_map. }
  destruct (shown_side ob depthRangePercent tickSize true depth)
    as (Hb1 & Hb2 & Hb3).
  destruct (shown_side ob depthRangePercent tickSize false depth)
    as (Ha1 & Ha2 & Ha3).
  cbv zeta in Hb1, Hb2, Hb3, Ha1, Ha2, Ha3.
  fold allBids in Hb1, Hb2, Hb3. fold allAsks in Ha1, Ha2, Ha3.
  pose proof (slice_to_length depth allBids) as Hkb.
  pose proof (slice_to_length depth allAsks) as Hka.
  split; [exact Hfb |]. split; [exact Hfa |].
  split; [now rewrite Hlb |]. split; [now rewrite Hla |].
  split.
  { intros Hd. rewrite Hlb, Hla, Hkb, Hka. unfold keptBySlice.
    destruct (Z.ltb_spec depth 0); lia. }
  split.
  { intros Hd. rewrite Hlb, Hla, Hkb, Hka. unfold keptBySlice.
    destruct (Z.ltb_spec depth 0); [split; reflexivity | lia]. }
  split; [rewrite Hlb; exact Hb1 |]. split; [rewrite Hla; exact Ha1 |].
  split; [rewrite Hfb; now apply NoDup_rev |].
  split; [rewrite Hfa; exact Ha2 |].
  split.
  - intros p Hp. rewrite Hfb in Hp. apply in_rev in Hp. now apply Hb3.
  - intros p Hp. rewrite Hfa in Hp. now apply Ha3.
Qed.

Lemma formatted_ladders_are_bounded_witness :
  length (fmt_bids (formatOrderbookData (Some smallBook) (of_Z 5) (of_Z 1) 1)) = 1%nat
  /\ length (fmt_bids (formatOrderbookData (Some smallBook) (of_Z 5) (of_Z 1) (-1)))
     = 1%nat
  /\ length (fmt_bids (formatOrderbookData (Some smallBook) (of_Z 5) (of_Z 1) (-5)))
     = 0%nat.
Proof.
  destruct (formatted_ladders_are_bounded smallBook (of_Z 5) (of_Z 1) 1)
    as (_ & _ & _ & H1 & _).
  destruct (formatted_ladders_are_bounded smallBook (of_Z 5) (of_Z 1) (-1))
    as (_ & _ & _ & H2 & _).
  destruct (formatted_ladders_are_bounded smallBook (of_Z 5) (of_Z 1) (-5))
    as (_ & _ & _ & H3 & _).
  vm_compute in H1, H2, H3.
  split; [| split]; apply Nat2Z.inj; [exact H1 | exact H2 | exact H3].
Defined.

(* ========================================================================= *)
(** * The liquidity imbalance *)

(** A positive finite number divided by itself is exactly 1. *)
Lemma div_self (x : number) : positiveFinite x = true -> div x x = of_Z 1.
Proof.
  destruct x as [s | s | | [|] m e]; try discriminate. intros _.
  unfold div, SFdiv, SFdiv_core_binary.
  replace (Zdigits2 (Z.pos m) + e - (Zdigits2 (Z.pos m) + e))%Z with 0%Z by lia.
  rewrite Z.sub_diag.
  change (Z.min (fexp prec emax 0) 0) with (-53)%Z.
  change (0 - -53)%Z with 53%Z. cbv beta iota zeta.
  assert (Hq : Z.div_eucl (Z.shiftl (Z.pos m) 53) (Z.pos m) = (2 ^ 53, 0)%Z).
  { pose proof (Z.div_eucl_eq (Z.shiftl (Z.pos m) 53) (Z.pos m) ltac:(lia)) as Heq.
    pose proof (Z.mod_pos_bound (Z.shiftl (Z.pos m) 53) (Z.pos m) ltac:(lia)) as Hr.
    unfold Z.modulo in Hr.
    destruct (Z.div_eucl (Z.shiftl (Z.pos m) 53) (Z.pos m)) as [q r].
    rewrite Z.shiftl_mul_pow2 in Heq by lia.
    assert (q = 2 ^ 53)%Z by nia. subst q.
    assert (r = 0)%Z by lia. now subst r. }
  rewrite Hq. unfold new_location.
  destruct (Z.even (Z.pos m)); reflexivity.
Qed.

Lemma add_zero_r (x : number) : positiveFinite x = true -> add x zero = x.
Proof. destruct x as [s | s | | [|] m e]; try discriminate. reflexivity. Qed.

Lemma add_zero_l (x : number) : positiveFinite x = true -> add zero x = x.
Proof. destruct x as [s | s | | [|] m e]; try discriminate. reflexivity. Qed.

Lemma positiveFinite_gt_zero (x : number) :
  positiveFinite x = true -> gt x zero = true.
Proof. destruct x as [s | s | | [|] m e]; try discriminate. reflexivity. Qed.

Lemma zero_div_positive (x : number) :
  positiveFinite x = true -> div zero x = zero.
Proof. destruct x as [s | s | | [|] m e]; try discriminate. reflexivity. Qed.

(** X15: the edges of the liquidity imbalance.  With no levels inside the
    imbalance depth on either side (or depth 0) the ratio is the neutral
    0.5; with levels on the bid side only, and a positive finite bid total,
    the ratio is exactly 1; with levels on the ask side only, and a positive
    finite ask total, it is exactly 0. *)
Theorem imbalance_at_the_edges (ob : Snapshot) (imbalanceDepth : nat) :
  let im := calculateImbalance (Some ob) imbalanceDepth in
  (firstn imbalanceDepth (bids ob) = [] ->
   firstn imbalanceDepth (asks ob) = [] -> ratio im = dec 5 1)
  /\ (firstn imbalanceDepth (asks ob) = [] ->
      positiveFinite (bidTotal im) = true -> ratio im = of_Z 1)
  /\ (firstn imbalanceDepth (bids ob) = [] ->
      positiveFinite (askTotal im) = true -> ratio im = zero).
Proof.
  intros im. unfold im, calculateImbalance. cbn [ratio bidTotal askTotal].
  split; [| split].
  - intros -> ->. reflexivity.
  - intros -> Hpos. cbn [volumeTotal fold_left].
    rewrite (add_zero_r _ Hpos), (positiveFinite_gt_zero _ Hpos).
    now apply div_self.
  - intros -> Hpos. cbn [volumeTotal fold_left].
    rewrite (add_zero_l _ Hpos), (positiveFinite_gt_zero _ Hpos).
    now apply zero_div_positive.
Qed.

Lemma imbalance_at_the_edges_witness :
  ratio (calculateImbalance (Some bidsOnlyBook) 10) = of_Z 1
  /\ ratio (calculateImbalance (Some asksOnlyBook) 10) = zero
  /\ ratio (calculateImbalance (Some smallBook) 0) = dec 5 1.
Proof.
  split; [| split].
  - apply (imbalance_at_the_edges bidsOnlyBook 10); reflexivity.
  - apply (imbalance_at_the_edges asksOnlyBook 10); reflexivity.
  - apply (imbalance_at_the_edges smallBook 0); reflexivity.
Defined.

(* ========================================================================= *)
(** * The heatmap intensity *)

Lemma find_holdsNear (tickSize p : number) (snapshot : HeatSnapshot) :
  holdsNear tickSize p snapshot
  = match find (levelNear tickSize p) (heat_bids snapshot ++ heat_asks snapshot) with
    | Some _ => true
    | None => false
    end.
Proof.
  unfold holdsNear.
  induction (heat_bids snapshot ++ heat_asks snapshot) as [| l ls IH];
    [reflexivity |].
  simpl. now destruct (levelNear tickSize p l).
Qed.

Lemma countPresence_filter (tickSize p : number) (heat : list HeatSnapshot) :
  countPresence tickSize p heat = length (filter (holdsNear tickSize p) heat).
Proof.
  unfold countPresence.
  assert (H : forall c,
             fold_left
               (fun totalPresence snapshot =>
                  match find (levelNear tickSize p)
                          (heat_bids snapshot ++ heat_asks snapshot) with
                  | Some _ => S totalPresence
                  | None => totalPresence
                  end) heat c
             = (c + length (filter (holdsNear tickSize p) heat))%nat).
  { induction heat as [| h heat IH]; intros c; simpl; [lia |].
    rewrite IH, find_holdsNear.
    destruct (find _ _); simpl; lia. }
  apply (H 0%nat).
Qed.

Lemma small_counts_are_positive_finite (n : nat) :
  (1 <= n <= HEATMAP_HISTORY_SIZE)%nat -> positiveFinite (of_nat n) = true.
Proof.
  intros Hn.
  assert (Hall : forallb (fun k => positiveFinite (of_nat k))
                         (seq 1 HEATMAP_HISTORY_SIZE) = true)
    by (vm_compute; reflexivity).
  rewrite forallb_forall in Hall. apply Hall. apply in_seq.
  unfold HEATMAP_HISTORY_SIZE in *. lia.
Qed.

(** X16: the extremes of the heatmap intensity.  The intensity is 0 for an
    empty window.  For a window within the cap of 30 captures it is exactly
    1 when every capture holds a level nearer to the price than one tick,
    and exactly 0 when no capture does; the number of captures counted
    never exceeds the size of the window. *)
Theorem heat_intensity_extremes (heat : list HeatSnapshot) (tickSize p : number) :
  (length heat <= HEATMAP_HISTORY_SIZE)%nat ->
  (heat = [] -> getHeatmapIntensity heat tickSize p = zero)
  /\ (heat <> [] -> forallb (holdsNear tickSize p) heat = true ->
      getHeatmapIntensity heat tickSize p = of_Z 1)
  /\ (existsb (holdsNear tickSize p) heat = false ->
      getHeatmapIntensity heat tickSize p = zero)
  /\ (countPresence tickSize p heat <= length heat)%nat.
Proof.
  intros Hcap. split; [now intros -> |].
  unfold getHeatmapIntensity. rewrite countPresence_filter.
  split; [| split].
  - intros Hne Hall.
    assert (Hfilter : filter (holdsNear tickSize p) heat = heat).
    { clear Hcap Hne. induction heat as [| h heat IH]; [reflexivity |].
      simpl in *. apply andb_prop in Hall. destruct Hall as [Hh Hall].
      rewrite Hh. now rewrite IH. }
    rewrite Hfilter.
    destruct heat as [| h heat]; [congruence |].
    cbn [length Nat.eqb]. apply div_self.
    apply small_counts_are_positive_finite. simpl in Hcap |- *. lia.
  - intros Hnone.
    assert (Hfilter : filter (holdsNear tickSize p) heat = []).
    { clear Hcap. induction heat as [| h heat IH]; [reflexivity |].
      simpl in *. apply orb_false_elim in Hnone. destruct Hnone as [Hh Hnone].
      rewrite Hh. now apply IH. }
    rewrite Hfilter.
    destruct heat as [| h heat]; [reflexivity |].
    cbn [length Nat.eqb]. apply zero_div_positive.
    apply small_counts_are_positive_finite. simpl in Hcap |- *. lia.
  - apply filter_length_le.
Qed.

Lemma heat_intensity_extremes_witness :
  getHeatmapIntensity steadyWindow (of_Z 1) (of_Z 100) = of_Z 1
  /\ getHeatmapIntensity steadyWindow (of_Z 1) (of_Z 50) = zero.
Proof.
  assert (Hcap : (length steadyWindow <= HEATMAP_HISTORY_SIZE)%nat)
    by (vm_compute; lia).
  destruct (heat_intensity_extremes steadyWindow (of_Z 1) (of_Z 100) Hcap)
    as (_ & Hall & _ & _).
  destruct (heat_intensity_extremes steadyWindow (of_Z 1) (of_Z 50) Hcap)
    as (_ & _ & Hnone & _).
  split; [apply Hall; [discriminate | reflexivity] | apply Hnone; reflexivity].
Defined.

(* ========================================================================= *)
(** * The candle strip *)

(** X17: the window of the candle strip.  The strip shows at most 60
    candles, none of them later than the replay second; they are the last
    candles of the fetched ones that are not later than the replay second,
    in their order, and all of these when there are at most 60.  The
    request asks for candles from exactly 7200 seconds before the replay
    second.  With fewer than two candles the price change is 0 and counts
    as positive. *)
Theorem candle_strip_window (replayMs : Z) (formattedCandles : list Candle) :
  let upTo := filter (fun c => (c_time c <=? replayMs / 1000)%Z) formattedCandles in
  let shown := displayCandles replayMs formattedCandles in
  length shown = Nat.min 60 (length upTo)
  /\ Suffix shown upTo
  /\ Forall (fun c => In c formattedCandles /\ (c_time c <= replayMs / 1000)%Z) shown
  /\ sinceTime replayMs = (replayMs / 1000 - 7200)%Z
  /\ ((length shown < 2)%nat ->
      priceChange shown = zero /\ isPositive shown = true).
Proof.
  intros upTo shown.
  assert (Hsuffix : Suffix shown upTo) by apply slice_last_suffix.
  split; [apply slice_last_length |].
  split; [exact Hsuffix |].
  split.
  { apply Forall_forall. intros c Hc.
    destruct Hsuffix as [front Hfront].
    assert (Hin : In c upTo) by (rewrite Hfront; apply in_or_app; now right).
    apply filter_In in Hin. destruct Hin as [Hin Ht].
    split; [exact Hin | now apply Z.leb_le]. }
  split.
  { unfold sinceTime.
    replace (replayMs - 2 * 60 * 60 * 1000)%Z
      with (replayMs + (-7200) * 1000)%Z by lia.
    rewrite Z.div_add by lia. lia. }
  intros Hshort. unfold isPositive, priceChange.
  destruct (Nat.leb_spec 2 (length shown)); [lia |]. now split.
Qed.

(* ========================================================================= *)
(** * The rolling volume windows *)

Lemma pushVolumes_slice (hist volumes : list number) :
  pushVolumes hist volumes = slice_last 100 (hist ++ volumes).
Proof.
  unfold pushVolumes.
  destruct (Nat.ltb_spec 100 (length (hist ++ volumes))) as [H | H];
    [reflexivity |].
  unfold slice_last.
  replace (length (hist ++ volumes) - 100)%nat with 0%nat by lia.
  reflexivity.
Qed.

Lemma pushVolumes_full (hist volumes : list number) :
  (100 <= length volumes)%nat ->
  pushVolumes hist volumes = slice_last 100 volumes.
Proof.
  intros Hlen. rewrite pushVolumes_slice. unfold slice_last.
  rewrite skipn_app, length_app.
  rewrite skipn_all2 by lia.
  replace (length hist + length volumes - 100 - length hist)%nat
    with (length volumes - 100)%nat by lia.
  reflexivity.
Qed.

(** X18: what the rolling volume windows hold.  After an update each window
    is the tail of the old window followed by the volumes of the current
    snapshot's side, cut to 100 samples, and the rolling average is the
    average of that window.  When the side has 100 levels or more the
    window holds volumes of the current snapshot only, so the rolling
    average does not depend on earlier snapshots. *)
Theorem rolling_window_keeps_newest (now : Z) (ob prev : Snapshot)
    (st st2 : DetectorState) :
  let st' := detectorUpdate now ob prev st in
  Suffix (volumeHistory_bids st')
         (volumeHistory_bids st ++ map volume (bids ob))
  /\ length (volumeHistory_bids st')
     = Nat.min 100 (length (volumeHistory_bids st) + length (bids ob))
  /\ Suffix (volumeHistory_asks st')
            (volumeHistory_asks st ++ map volume (asks ob))
  /\ length (volumeHistory_asks st')
     = Nat.min 100 (length (volumeHistory_asks st) + length (asks ob))
  /\ rollingAvg_bid st' = average (volumeHistory_bids st')
  /\ rollingAvg_ask st' = average (volumeHistory_asks st')
  /\ ((100 <= length (bids ob))%nat ->
      rollingAvg_bid st' = rollingAvg_bid (detectorUpdate now ob prev st2))
  /\ ((100 <= length (asks ob))%nat ->
      rollingAvg_ask st' = rollingAvg_ask (detectorUpdate now ob prev st2)).
Proof.
  intros st'. unfold st', detectorUpdate.
  cbn [volumeHistory_bids volumeHistory_asks rollingAvg_bid rollingAvg_ask].
  rewrite !pushVolumes_slice.
  split; [apply slice_last_suffix |].
  split; [now rewrite slice_last_length, length_app, length_map |].
  split; [apply slice_last_suffix |].
  split; [now rewrite slice_last_length, length_app, length_map |].
  split; [reflexivity |]. split; [reflexivity |].
  split; intros Hlen.
  - rewrite <- !pushVolumes_slice.
    now rewrite !pushVolumes_full by (rewrite length_map; exact Hlen).
  - rewrite <- !pushVolumes_slice.
    now rewrite !pushVolumes_full by (rewrite length_map; exact Hlen).
Qed.

